(** * The Wyoming Satellite installer, embedded in Rocq

    A shallow embedding of [script/_installer.py]: the text-mode wizard that
    configures a voice satellite.  The embedding covers

    - the tag tables of the list dialogs ([menu], [radiolist], [checklist]),
    - the microphone probe ([_record_proc] and the autodetect branch of
      [configure_microphone]),
    - the command runner ([run_with_gauge], [_run_command]),
    - the settings store ([Settings.load], [Settings.save]),
    - the handlers [install_wake_word], [select_wake_word] and
      [generate_services],
    - the device lists ([get_microphone_devices], [get_sound_devices]),
    - the other dialogs ([inputbox], [paswordbox], [yesno]) and the menus,
    - the handlers with a menu loop ([configure_microphone],
      [configure_sound], [configure_wake_word]), [set_satellite_name],
      [set_satellite_type], [install_services], and [main].

    The file has three parts: the embedding, the vocabulary of the
    statements, and the properties with their proofs.

    Conventions.  A Python [str] is a [string]; [None] is the [None] of
    [option]; a [float] is a real number (the rounding of the float
    operations is not modelled); an exception is a value of [exn], and a
    call that may raise returns a [result].  Everything outside the program
    (processes, the terminal, files made by other processes) is an [Env]:
    an oracle that answers from the log of what has happened so far.  The
    members of the two [str]-based enums are represented by their values,
    which is how Python compares, hashes and serialises them.  A loop that
    runs until the user leaves it is given a number of rounds; a call that
    has not ended within them comes to [Pending]. *)

From Stdlib Require Import ZArith Reals Lra Lia Ascii String.
From stdpp Require Import base list strings gmap pretty.
Close Scope R_scope.
Set Warnings "-register-all".

(** ** Python: exceptions and results *)

(** The exceptions the modelled code can meet; every one derives from
    [Exception], so [except Exception] catches them all. *)
Inductive exn :=
| AssertionError
| OSError
| CalledProcessError
| ValueError
| ZeroDivisionError
| AttributeError.

Inductive result (A : Type) : Type :=
| Returned (a : A)
| Raised (e : exn).
Arguments Returned {A} a.
Arguments Raised {A} e.

Definition result_map {A B} (f : A → B) (r : result A) : result B :=
  match r with
  | Returned a => Returned (f a)
  | Raised e => Raised e
  end.

(** [str(i)] for a list index: its decimal digits. *)
Definition str (i : nat) : string := pretty i.

(** [" ".join(parts)] and friends. *)
Definition join (sep : string) (parts : list string) : string :=
  String.concat sep parts.

(** The double quote character (34). *)
Definition dquote : ascii := "034"%char.

(** ** [shlex]: the standard library's shell lexer, as the installer uses it *)

Module shlex.

(** The lexer's state: [' '] between tokens, ['a'] inside a word, a quote
    character inside quotes, the escape character after a backslash. *)
Inductive state :=
| Space
| Word
| Quote (q : ascii)
| Escape.

Definition whitespace (c : ascii) : bool :=
  bool_decide (c ∈ [" "; "009"; "013"; "010"]%char).
Definition quotes (c : ascii) : bool :=
  bool_decide (c ∈ ["'"%char; dquote]).
Definition escape (c : ascii) : bool := bool_decide (c = "\"%char).
Definition escapedquotes (c : ascii) : bool := bool_decide (c = dquote).

Definition nonempty (s : string) : bool := negb (bool_decide (s = "")).

(** [token += nextchar]. *)
Definition add (token : string) (c : ascii) : string :=
  token +:+ String c "".

(** [list(lex)] for a lexer in POSIX mode with [whitespace_split] set and
    no comment characters: [read_token] run until the end of the input.
    [token], [quoted] and [escapedstate] are [read_token]'s variables; an
    emitted token starts the next [read_token] with fresh ones. *)
Fixpoint read (s : string) (st : state) (token : string) (quoted : bool)
    (escapedstate : state) : result (list string) :=
  match s with
  | "" =>
      match st with
      | Space | Word =>
          Returned (if negb quoted && negb (nonempty token) then []
                    else [token])
      | Quote _ | Escape => Raised ValueError
      end
  | String c rest =>
      match st with
      | Space =>
          if whitespace c then
            if nonempty token || quoted
            then result_map (cons token) (read rest Space "" false Space)
            else read rest Space token quoted escapedstate
          else if escape c then read rest Escape token quoted Word
          else if quotes c then read rest (Quote c) token quoted escapedstate
          else read rest Word (String c "") quoted escapedstate
      | Quote q =>
          if bool_decide (c = q) then read rest Word token true escapedstate
          else if escape c && escapedquotes q
          then read rest Escape token true (Quote q)
          else read rest (Quote q) (add token c) true escapedstate
      | Escape =>
          let token :=
            match escapedstate with
            | Quote q =>
                if negb (escape c) && negb (bool_decide (c = q))
                then add token "\"%char else token
            | _ => token
            end in
          read rest escapedstate (add token c) quoted escapedstate
      | Word =>
          if whitespace c then
            if nonempty token || quoted
            then result_map (cons token) (read rest Space "" false Space)
            else read rest Space token quoted escapedstate
          else if quotes c then read rest (Quote c) token quoted escapedstate
          else if escape c then read rest Escape token quoted Word
          else read rest Word (add token c) quoted escapedstate
      end
  end.

Definition split (s : string) : result (list string) :=
  read s Space "" false Space.

(** [re.compile(r'[^\w@%+=:,./-]', re.ASCII)]: the characters [quote]
    leaves alone. *)
Definition safe (c : ascii) : bool :=
  let n := nat_of_ascii c in
  (bool_decide (97 ≤ n ≤ 122) || bool_decide (65 ≤ n ≤ 90)
   || bool_decide (48 ≤ n ≤ 57)
   || bool_decide (c ∈ ["_"; "@"; "%"; "+"; "="; ":"; ","; "."; "/"; "-"]%char)).

Fixpoint all_safe (s : string) : bool :=
  match s with
  | "" => true
  | String c rest => safe c && all_safe rest
  end.

(** [s.replace("'", "'\"'\"'")]. *)
Fixpoint escape_single_quotes (s : string) : string :=
  match s with
  | "" => ""
  | String c rest =>
      if bool_decide (c = "'"%char)
      then String "'" (String dquote (String "'" (String dquote
             (String "'" (escape_single_quotes rest)))))
      else String c (escape_single_quotes rest)
  end.

Definition quote (s : string) : string :=
  if bool_decide (s = "") then "''"
  else if all_safe s then s
  else "'" +:+ escape_single_quotes s +:+ "'".

Definition join (split_command : list string) : string :=
  String.concat " " (quote <$> split_command).

End shlex.

(** ** The two enums *)

(** [class SatelliteType(str, Enum)]: each member is the [str] it names. *)
Module SatelliteType.
Definition ALWAYS_STREAMING : string := "always".
Definition VAD : string := "vad".
Definition WAKE : string := "wake".
End SatelliteType.

(** [class WakeWordSystem(str, Enum)]. *)
Module WakeWordSystem.
Definition OPENWAKEWORD : string := "openWakeWord".
Definition PORCUPINE1 : string := "porcupine1".
Definition SNOWBOY : string := "snowboy".
(** [[v.value for v in WakeWordSystem]] *)
Definition values : list string := [OPENWAKEWORD; PORCUPINE1; SNOWBOY].
End WakeWordSystem.

(** [d.setdefault(key, default)], for its effect on [d]. *)
Definition setdefault (key default : string) (d : gmap string string)
    : gmap string string :=
  match d !! key with
  | Some _ => d
  | None => <[key := default]> d
  end.

(** ** JSON documents *)

(** What [json.load] returns and [json.dump] accepts.  The settings file is
    modelled by the document it holds: [json.dump] followed by [json.load]
    is the identity on documents (text layout and encoding are the [json]
    module's business). *)
Inductive json :=
| JNull
| JBool (b : bool)
| JNum (n : Z)
| JStr (s : string)
| JArr (items : list json)
| JObj (members : list (string * json)).

(** An object read by [json.load] keeps, for a repeated name, the last
    value. *)
Definition obj_get (key : string) (members : list (string * json))
    : option json :=
  foldl (λ found kv, if bool_decide (kv.1 = key) then Some kv.2 else found)
        None members.

(** [d.get(key)] on whatever [json.load] returned: a missing key and a
    [null] both give [None]; only an object has [get]. *)
Definition dict_get (d : json) (key : string) : result (option json) :=
  match d with
  | JObj members =>
      Returned (match obj_get key members with
                | Some JNull | None => None
                | Some v => Some v
                end)
  | _ => Raised AttributeError
  end.

Definition json_of_option (o : option string) : json :=
  match o with
  | Some s => JStr s
  | None => JNull
  end.

(** Reading a keyword argument at the type its field declares.  Python
    stores whatever it is given; a value of another type would make an
    object that breaks the dataclass's annotations, which the typed record
    cannot hold: there the model answers [None]. *)
Definition as_str (v : json) : option string :=
  match v with
  | JStr s => Some s
  | _ => None
  end.

Definition as_str_list (v : json) : option (list string) :=
  match v with
  | JArr items => mapM as_str items
  | _ => None
  end.

Definition as_str_dict (v : json) : option (gmap string string) :=
  match v with
  | JObj members =>
      foldl (λ acc kv, d ← acc; s ← as_str kv.2; Some (<[kv.1 := s]> d))
            (Some ∅) members
  | _ => None
  end.

Definition kwarg {A} (kwargs : list (string * json)) (name : string)
    (read : json → option A) (default : A) : option A :=
  match obj_get name kwargs with
  | Some v => read v
  | None => Some default
  end.

(** ** The world outside the program *)

(** What the program does to its surroundings, in the order it does it:
    starting a process, writing to it and waiting for it, printing a
    percentage to the gauge, handing a command to the thread pool
    ([executor.submit(_run_command, command, ...)]) and taking its result
    ([future.result()]), asking whether a path exists, making and removing
    directories, and running a command for its output. *)
Inductive event :=
| Popen (argv : list string) (stdin_pipe : bool)
| Communicate (input : option string)
| Gauge (percent : Z)
| Submit (command : list string)
| Result (ok : bool)
| Exists (path : string)
| Mkdir (path : string)
| Rmtree (path : string)
| CheckOutput (argv : list string).

(** The surroundings answer from the log of what has happened so far; the
    last event of the log is the call being answered. *)
Record Env := mkEnv {
  (** [_PROGRAM_DIR] *)
  program_dir : string;
  (** [sys.byteorder == "big"] *)
  big_endian : bool;
  (** does the process of this [Popen] start ([OSError] if not) *)
  spawns : list event → bool;
  (** the return code and the standard error text [communicate] collects *)
  exits : list event → Z * string;
  (** how often [future.done()] is [False] before the submitted task ends
      (every process ends) *)
  polls : list event → nat;
  (** the answer of [Path.exists()] *)
  present : list event → bool;
  (** what [subprocess.check_output] gives: the output, or an exception *)
  outputs : list event → result string;
}.

(** The files the program itself writes: the settings file, held as the
    document in it, and text files by path. *)
Record World := mkWorld {
  settings_file : option json;
  files : gmap string string;
  log : list event;
}.

(** A computation: reads the surroundings, changes the world, returns or
    raises. *)
Definition M (A : Type) : Type := Env → World → result A * World.

Definition raise {A} (e : exn) : M A := λ _ w, (Raised e, w).

#[global] Instance M_ret : MRet M := λ A a _ w, (Returned a, w).

#[global] Instance M_bind : MBind M := λ A B k m env w,
  match m env w with
  | (Returned a, w') => k a env w'
  | (Raised e, w') => (Raised e, w')
  end.

(** [try: body / except Exception: handler]. *)
Definition try_except {A} (body : M A) (handler : M A) : M A :=
  λ env w,
    match body env w with
    | (Returned a, w') => (Returned a, w')
    | (Raised _, w') => handler env w'
    end.

Definition emit (e : event) : M unit :=
  λ _ w, (Returned tt,
          {| settings_file := settings_file w;
             files := files w;
             log := log w ++ [e] |}).

Definition ask {A} (answer : Env → list event → A) : M A :=
  λ env w, (Returned (answer env (log w)), w).

(** Writing the settings file ([json.dump] into [_SETTINGS_PATH]) and a text
    file. *)
Definition write_settings (document : json) : M unit :=
  λ _ w, (Returned tt,
          {| settings_file := Some document;
             files := files w;
             log := log w |}).

Definition write_file (path content : string) : M unit :=
  λ _ w, (Returned tt,
          {| settings_file := settings_file w;
             files := <[path := content]> (files w);
             log := log w |}).

(** [assert cond]. *)
Definition assert (cond : bool) : M unit :=
  if cond then mret tt else raise AssertionError.

(** [subprocess.Popen(argv, ...)]; [stdin_pipe] says whether the call passes
    [stdin=subprocess.PIPE]. *)
Definition subprocess_Popen (argv : list string) (stdin_pipe : bool) : M unit :=
  emit (Popen argv stdin_pipe);;
  started ← ask spawns;
  if started : bool then mret tt else raise OSError.

(** [proc.communicate(input)]: writes [input], if any, to the process's
    input channel, closes the channel and waits; gives the return code and
    the collected standard error. *)
Definition communicate (input : option string) : M (Z * string) :=
  emit (Communicate input);;
  ask exits.

(** [subprocess.check_output(argv)]. *)
Definition check_output (argv : list string) : M string :=
  emit (CheckOutput argv);;
  out ← ask outputs;
  match out with
  | Returned text => mret text
  | Raised e => raise e
  end.

(** [path.exists()] for a path other processes may create. *)
Definition exists_ (path : string) : M bool :=
  emit (Exists path);;
  ask present.

(** [a / b] on paths. *)
Definition path_join (a b : string) : string := a +:+ "/" +:+ b.
Infix "/>" := path_join (at level 40, left associativity).

Definition _LOCAL_DIR (env : Env) : string := program_dir env /> "local".
Definition _SETTINGS_PATH (env : Env) : string :=
  _LOCAL_DIR env /> "settings.json".

Definition _RECORD_SECONDS : nat := 8.
Definition _RECORD_RMS_MIN : R := 30%R.

Definition TITLE : string := "Wyoming Satellite".
Definition WIDTH : string := "75".
Definition HEIGHT : string := "20".
Definition LIST_HEIGHT : string := "12".

(** ** The settings object and its store *)

Module Settings.

(** [@dataclass class Settings]. *)
Record Settings := mkSettings {
  microphone_device : option string;
  sound_device : option string;
  feedback_sounds : list string;
  wake_word_system : option string;
  wake_word : gmap string string;
  satellite_name : string;
  satellite_type : string;
}.

(** [Settings()]: every field at its default. *)
Definition defaults : Settings :=
  {| microphone_device := None;
     sound_device := None;
     feedback_sounds := [];
     wake_word_system := None;
     wake_word := ∅;
     satellite_name := "Wyoming Satellite";
     satellite_type := SatelliteType.ALWAYS_STREAMING |}.

Definition set_microphone_device (v : option string) (s : Settings) : Settings :=
  {| microphone_device := v;
     sound_device := sound_device s;
     feedback_sounds := feedback_sounds s;
     wake_word_system := wake_word_system s;
     wake_word := wake_word s;
     satellite_name := satellite_name s;
     satellite_type := satellite_type s |}.

Definition set_wake_word_system (v : option string) (s : Settings) : Settings :=
  {| microphone_device := microphone_device s;
     sound_device := sound_device s;
     feedback_sounds := feedback_sounds s;
     wake_word_system := v;
     wake_word := wake_word s;
     satellite_name := satellite_name s;
     satellite_type := satellite_type s |}.

Definition set_wake_word (v : gmap string string) (s : Settings) : Settings :=
  {| microphone_device := microphone_device s;
     sound_device := sound_device s;
     feedback_sounds := feedback_sounds s;
     wake_word_system := wake_word_system s;
     wake_word := v;
     satellite_name := satellite_name s;
     satellite_type := satellite_type s |}.

Definition set_sound_device (v : option string) (s : Settings) : Settings :=
  {| microphone_device := microphone_device s;
     sound_device := v;
     feedback_sounds := feedback_sounds s;
     wake_word_system := wake_word_system s;
     wake_word := wake_word s;
     satellite_name := satellite_name s;
     satellite_type := satellite_type s |}.

Definition set_feedback_sounds (v : list string) (s : Settings) : Settings :=
  {| microphone_device := microphone_device s;
     sound_device := sound_device s;
     feedback_sounds := v;
     wake_word_system := wake_word_system s;
     wake_word := wake_word s;
     satellite_name := satellite_name s;
     satellite_type := satellite_type s |}.

Definition set_satellite_name (v : string) (s : Settings) : Settings :=
  {| microphone_device := microphone_device s;
     sound_device := sound_device s;
     feedback_sounds := feedback_sounds s;
     wake_word_system := wake_word_system s;
     wake_word := wake_word s;
     satellite_name := v;
     satellite_type := satellite_type s |}.

Definition set_satellite_type (v : string) (s : Settings) : Settings :=
  {| microphone_device := microphone_device s;
     sound_device := sound_device s;
     feedback_sounds := feedback_sounds s;
     wake_word_system := wake_word_system s;
     wake_word := wake_word s;
     satellite_name := satellite_name s;
     satellite_type := v |}.

(** The document [json.dump] writes for [asdict(self)]: the fields in
    declaration order. *)
Definition asdict (self : Settings) : json :=
  JObj [
    ("microphone_device", json_of_option (microphone_device self));
    ("sound_device", json_of_option (sound_device self));
    ("feedback_sounds", JArr (JStr <$> (feedback_sounds self : list string)));
    ("wake_word_system", json_of_option (wake_word_system self));
    ("wake_word", JObj ((λ kv : string * string, (kv.1, JStr kv.2)) <$>
                        (map_to_list (wake_word self) : list (string * string))));
    ("satellite_name", JStr (satellite_name self));
    ("satellite_type", JStr (satellite_type self))
  ].

(** [fields(Settings)], by name. *)
Definition fields_Settings : list string :=
  ["microphone_device"; "sound_device"; "feedback_sounds";
   "wake_word_system"; "wake_word"; "satellite_name"; "satellite_type"].

(** The loop of [Settings.load] that fills [kwargs]. *)
Fixpoint load_kwargs (names : list string) (settings_dict : json)
    (kwargs : list (string * json)) : result (list (string * json)) :=
  match names with
  | [] => Returned kwargs
  | name :: names =>
      match dict_get settings_dict name with
      | Raised e => Raised e
      | Returned (Some value) =>
          load_kwargs names settings_dict (kwargs ++ [(name, value)])
      | Returned None => load_kwargs names settings_dict kwargs
      end
  end.

(** [Settings( **kwargs )]. *)
Definition init (kwargs : list (string * json)) : option Settings :=
  microphone_device ← kwarg kwargs "microphone_device" (fmap Some ∘ as_str) None;
  sound_device ← kwarg kwargs "sound_device" (fmap Some ∘ as_str) None;
  feedback_sounds ← kwarg kwargs "feedback_sounds" as_str_list [];
  wake_word_system ← kwarg kwargs "wake_word_system" (fmap Some ∘ as_str) None;
  wake_word ← kwarg kwargs "wake_word" as_str_dict ∅;
  satellite_name ← kwarg kwargs "satellite_name" as_str "Wyoming Satellite";
  satellite_type ← kwarg kwargs "satellite_type" as_str
                     SatelliteType.ALWAYS_STREAMING;
  Some (mkSettings microphone_device sound_device feedback_sounds
          wake_word_system wake_word satellite_name satellite_type).

(** [Settings.load()].  [None] inside the result: the file holds a value of
    another type than its field declares (see [as_str]). *)
Definition load : M (option Settings) :=
  λ env w,
    match settings_file w with
    | Some settings_dict =>
        match load_kwargs fields_Settings settings_dict [] with
        | Returned kwargs => (Returned (init kwargs), w)
        | Raised e => (Raised e, w)
        end
    | None => (Returned (init []), w)
    end.

(** [self.save()]. *)
Definition save (self : Settings) : M unit :=
  let settings_dict := asdict self in
  parent ← ask (λ env _, _LOCAL_DIR env);
  emit (Mkdir parent);;
  write_settings settings_dict.

End Settings.

Abbreviation Settings := Settings.Settings.

(** ** whiptail *)

(** [whiptail( *args )]. *)
Definition whiptail (args : list string) : M (option string) :=
  subprocess_Popen (["whiptail"; "--title"; TITLE] ++ args) false;;
  '(returncode, stderr) ← communicate None;
  if bool_decide (returncode ≠ 0%Z) then mret None
  else mret (Some stderr).

(** [ItemType = Union[str, Tuple[str, str]]]. *)
Inductive ItemType :=
| Label (item : string)
| Pair (value label : string).

(** What [item_map] holds for an item, and what the dialog shows for it. *)
Definition item_value (item : ItemType) : string :=
  match item with
  | Label item => item
  | Pair value _ => value
  end.

Definition item_label (item : ItemType) : string :=
  match item with
  | Label item => item
  | Pair _ label => label
  end.

(** [enumerate(items)]. *)
Definition enumerate {A} (items : list A) : list (nat * A) :=
  imap (λ i item, (i, item)) items.

(** The loop of [menu] over [enumerate(items)]: one step, and the tables
    [(item_map, item_args)] it leaves. *)
Definition menu_step (tables : gmap string string * list string)
    (entry : nat * ItemType) : gmap string string * list string :=
  let '(item_map, item_args) := tables in
  let '(i, item) := entry in
  let item_id := str i in
  let item_args := item_args ++ [item_id] in
  (<[item_id := item_value item]> item_map, item_args ++ [item_label item]).

Definition menu_tables (items : list ItemType)
    : gmap string string * list string :=
  foldl menu_step (∅, []) (enumerate items).

(** [menu(text, items, *args)]. *)
Definition menu (text : string) (items : list ItemType) (args : list string)
    : M (option string) :=
  assert (negb (bool_decide (items = [])));;
  let '(item_map, item_args) := menu_tables items in
  result ← whiptail (["--notags"] ++ args
                     ++ ["--menu"; text; HEIGHT; WIDTH; LIST_HEIGHT]
                     ++ item_args);
  mret (result ≫= (λ tag, item_map !! tag)).

(** The loop of [radiolist] and [checklist]: the same tables with a flag
    after each label; [selected] is the test [item == selected_item], or
    [item in selected_items]. *)
Definition flag_step (selected : string → bool)
    (tables : gmap string string * list string)
    (entry : nat * ItemType) : gmap string string * list string :=
  let '(item_map, item_args) := tables in
  let '(i, item) := entry in
  let item_id := str i in
  let item_args := item_args ++ [item_id] in
  (<[item_id := item_value item]> item_map,
   item_args ++ [item_label item]
             ++ [if selected (item_value item) then "1" else "0"]).

Definition flag_tables (selected : string → bool) (items : list ItemType)
    : gmap string string * list string :=
  foldl (flag_step selected) (∅, []) (enumerate items).

(** [radiolist(text, items, selected_item, *args)]. *)
Definition radiolist (text : string) (items : list ItemType)
    (selected_item : option string) (args : list string) : M (option string) :=
  assert (negb (bool_decide (items = [])));;
  let '(item_map, item_args) :=
    flag_tables (λ v, bool_decide (Some v = selected_item)) items in
  result ← whiptail (["--notags"] ++ args
                     ++ ["--radiolist"; text; HEIGHT; WIDTH; LIST_HEIGHT]
                     ++ item_args);
  match result with
  | None => mret None
  | Some result => mret (Some (default result (item_map !! result)))
  end.

(** [checklist(text, items, selected_items, *args)]. *)
Definition checklist (text : string) (items : list ItemType)
    (selected_items : list string) (args : list string)
    : M (option (list string)) :=
  assert (negb (bool_decide (items = [])));;
  let '(item_map, item_args) :=
    flag_tables (λ v, bool_decide (v ∈ selected_items)) items in
  result ← whiptail (["--notags"] ++ args
                     ++ ["--checklist"; text; HEIGHT; WIDTH; LIST_HEIGHT]
                     ++ item_args);
  match result with
  | None => mret None
  | Some result =>
      match shlex.split result with
      | Raised e => raise e
      | Returned tags =>
          mret (Some ((λ result_item,
                        default result_item (item_map !! result_item))
                     <$> tags))
      end
  end.

(** [msgbox(text)]. *)
Definition msgbox (text : string) : M unit :=
  whiptail ["--msgbox"; text; HEIGHT; WIDTH];;
  mret tt.

(** [gauge(text, seconds)] with the default [parts = 20]: the loop runs while
    [percent <= 100], so [fuel] above 21 is never used up. *)
Fixpoint gauge_loop (fuel : nat) (percent : Z) : M unit :=
  match fuel with
  | O => mret tt
  | S fuel =>
      if bool_decide (percent ≤ 100)%Z then
        let percent := (percent + 100 / 20)%Z in
        emit (Gauge percent);;
        gauge_loop fuel percent
      else mret tt
  end.

Definition gauge (text : string) (seconds : nat) : M unit :=
  subprocess_Popen
    ["whiptail"; "--title"; TITLE; "--gauge"; text; HEIGHT; WIDTH; "0"] true;;
  gauge_loop 101 0;;
  communicate None;;
  mret tt.

(** ** The thread pool *)

(** [executor.submit(task)] gives a future; [future.result()] returns what
    the task returned or raises what it raised.  The model runs the task
    where it is submitted: its events enter the log there, before those of
    the thread that waits for it. *)
Definition executor_submit {A} (task : M A) : M (result A) :=
  λ env w, let '(outcome, w') := task env w in (Returned outcome, w').

Definition future_result {A} (future : result A) : M A :=
  match future with
  | Returned a => mret a
  | Raised e => raise e
  end.

(** A pure step that may raise, inside a computation. *)
Definition lift {A} (r : result A) : M A :=
  match r with
  | Returned a => mret a
  | Raised e => raise e
  end.

(** ** The microphone probe *)

(** One 16-bit signed sample from two bytes in the machine's byte order. *)
Definition int16 (big : bool) (first second : ascii) : Z :=
  let '(lo, hi) := if big then (second, first) else (first, second) in
  let u := (Z.of_nat (nat_of_ascii lo) + 256 * Z.of_nat (nat_of_ascii hi))%Z in
  if bool_decide (u < 32768)%Z then u else (u - 65536)%Z.

(** [array.array("h", audio)]: the bytes two by two, in the machine's byte
    order; a length that is not a multiple of the item size raises. *)
Fixpoint array_h (big : bool) (audio : string) : result (list Z) :=
  match audio with
  | "" => Returned []
  | String _ "" => Raised ValueError
  | String first (String second rest) =>
      result_map (cons (int16 big first second)) (array_h big rest)
  end.

(** [sum(x * x for x in audio_array.tolist())]. *)
Definition sum_squares (audio_array : list Z) : Z :=
  foldr (λ x acc, (x * x + acc)%Z) 0%Z audio_array.

(** [math.sqrt((1 / len(audio_array) * sum(...)))]; the division comes
    first and raises on an empty array. *)
Definition rms_of (audio_array : list Z) : result R :=
  if bool_decide (length audio_array = 0) then Raised ZeroDivisionError
  else Returned (sqrt (1 / INR (length audio_array)
                       * IZR (sum_squares audio_array))%R).

(** The capture command of [_record_proc]. *)
Definition arecord (device : string) : list string :=
  ["arecord"; "-q"; "-D"; device; "-r"; "16000"; "-c"; "1";
   "-f"; "S16_LE"; "-t"; "raw"; "-d"; str _RECORD_SECONDS].

(** [_record_proc(device)]. *)
Definition _record_proc (device : string) : M R :=
  try_except
    (audio ← check_output (arecord device);
     big ← ask (λ env _, big_endian env);
     audio_array ← lift (array_h big audio);
     rms ← lift (rms_of audio_array);
     mret rms)
    (mret 0%R).

(** [futures[device] = future] on an insertion-ordered [dict]: a key that
    is there keeps its place and takes the new value, a new key goes last. *)
Fixpoint dict_set {V} (key : string) (value : V) (d : list (string * V))
    : list (string * V) :=
  match d with
  | [] => [(key, value)]
  | (k, v) :: d =>
      if bool_decide (k = key) then (k, value) :: d
      else (k, v) :: dict_set key value d
  end.

(** The submit loop of the autodetect branch. *)
Fixpoint submit_probes (devices : list string)
    (futures : list (string * result R)) : M (list (string * result R)) :=
  match devices with
  | [] => mret futures
  | device :: devices =>
      future ← executor_submit (_record_proc device);
      submit_probes devices (dict_set device future futures)
  end.

(** The loop over [futures.items()]. *)
Fixpoint best_of (items : list (string * result R))
    (best_device : option string) (best_rms : option R)
    : result (option string) :=
  match items with
  | [] => Returned best_device
  | (device, future) :: items =>
      match future with
      | Raised e => Raised e
      | Returned device_rms =>
          if Rlt_dec device_rms _RECORD_RMS_MIN
          then best_of items best_device best_rms
          else if match best_rms with
                  | None => true
                  | Some best_rms =>
                      if Rgt_dec device_rms best_rms then true else false
                  end
               then best_of items (Some device) (Some device_rms)
               else best_of items best_device best_rms
      end
  end.

(** The branch [choice == "detect"] of [configure_microphone];
    [devices] is what [get_microphone_devices()] returned. *)
Definition detect (settings : Settings) (devices : list string) : M Settings :=
  futures ← submit_probes devices [];
  gauge "Speak loudly into the microphone." _RECORD_SECONDS;;
  best_device ← lift (best_of futures None None);
  match best_device with
  | Some best_device =>
      msgbox ("Successfully detected microphone: " +:+ best_device);;
      let settings := Settings.set_microphone_device (Some best_device) settings in
      Settings.save settings;;
      mret settings
  | None =>
      msgbox "Audio was not detected from any microphone";;
      mret settings
  end.

(** ** The command runner *)

(** [_run_command(command, sudo_password)]. *)
Definition _run_command (command : list string) (sudo_password : option string)
    : M bool :=
  try_except
    (assert (negb (bool_decide (command = [])));;
     let proc_input :=
       if bool_decide (command !! 0 = Some "sudo")
          && negb (bool_decide (sudo_password = None))
       then sudo_password else None in
     subprocess_Popen command true;;
     '(returncode, stderr) ← communicate proc_input;
     if bool_decide (returncode ≠ 0%Z) then mret false
     else mret true)
    (mret false).

(** The loop [while not future.done()]: [n] rounds of sleeping, stepping
    the counter and printing it to the gauge. *)
Fixpoint wait_done (n : nat) (percent : Z) : M Z :=
  match n with
  | O => mret percent
  | S n =>
      let percent := (percent + 100 / 20)%Z in
      let percent := if bool_decide (percent > 100)%Z then 0%Z else percent in
      emit (Gauge percent);;
      wait_done n percent
  end.

(** The loop [for command in commands] of [run_with_gauge]; [false] is the
    [return False] inside it. *)
Fixpoint run_commands (commands : list (list string))
    (sudo_password : option string) (percent : Z) : M bool :=
  match commands with
  | [] => mret true
  | command :: commands =>
      emit (Submit command);;
      future ← executor_submit (_run_command command sudo_password);
      n ← ask polls;
      percent ← wait_done n percent;
      ok ← future_result future;
      emit (Result ok);;
      if negb ok then mret false
      else run_commands commands sudo_password percent
  end.

(** [run_with_gauge(text, commands, sudo_password)]. *)
Definition run_with_gauge (text : string) (commands : list (list string))
    (sudo_password : option string) : M bool :=
  subprocess_Popen
    ["whiptail"; "--title"; TITLE; "--gauge"; text; HEIGHT; WIDTH; "0"] true;;
  ok ← run_commands commands sudo_password 0;
  if ok : bool then communicate None;; mret true
  else mret false.

(** ** Wake word handlers *)

(** [shutil.rmtree(path)]. *)
Definition rmtree (path : string) : M unit := emit (Rmtree path).

(** The body the three branches of [install_wake_word] share: [name] is the
    engine as the messages spell it, [repo] its directory under
    [_LOCAL_DIR] and repository name, [key] the member its wake word is
    filed under, [word] the default wake word. *)
Definition install_engine (settings : Settings) (wake_word_system : string)
    (name repo key word : string) : M Settings :=
  engine_dir ← ask (λ env _, _LOCAL_DIR env /> repo);
  there ← exists_ engine_dir;
  installed ←
    (if negb there then
       success ← run_with_gauge ("Installing " +:+ name)
                   [["git"; "clone";
                     "https://github.com/rhasspy/" +:+ repo +:+ ".git";
                     engine_dir];
                    [engine_dir /> "script" /> "setup"]]
                   None;
       if success : bool then
         msgbox (name +:+ " installed successfully");;
         mret true
       else
         msgbox ("An error occurred while installing " +:+ name +:+ ". "
                 +:+ "See local/installer.log for details.");;
         try_except (rmtree engine_dir) (mret tt);;
         mret false
     else mret true);
  if installed : bool then
    let settings := Settings.set_wake_word_system (Some wake_word_system) settings in
    let settings :=
      Settings.set_wake_word (setdefault key word (Settings.wake_word settings)) settings in
    Settings.save settings;;
    mret settings
  else mret settings.

(** [install_wake_word(settings, wake_word_system)].  The first two tests
    are on the requested system, the third on the stored one. *)
Definition install_wake_word (settings : Settings) (wake_word_system : string)
    : M Settings :=
  if bool_decide (wake_word_system = WakeWordSystem.OPENWAKEWORD) then
    install_engine settings wake_word_system "openWakeWord"
      "wyoming-openwakeword" WakeWordSystem.OPENWAKEWORD "ok_nabu"
  else if bool_decide (wake_word_system = WakeWordSystem.PORCUPINE1) then
    install_engine settings wake_word_system "porcupine1"
      "wyoming-porcupine1" WakeWordSystem.PORCUPINE1 "porcupine"
  else if bool_decide
            (Settings.wake_word_system settings = Some WakeWordSystem.SNOWBOY) then
    install_engine settings wake_word_system "snowboy"
      "wyoming-snowboy" WakeWordSystem.SNOWBOY "snowboy"
  else mret settings.

(** The body the branches of [select_wake_word] share: a radio list of
    [items] with the word filed under [key] preselected; a present answer
    is filed under [key] and saved. *)
Definition choose_wake_word (settings : Settings) (items : list ItemType)
    (key : string) : M Settings :=
  wake_word ← radiolist "Wake Word:" items (Settings.wake_word settings !! key) [];
  match wake_word with
  | Some word =>
      let settings := Settings.set_wake_word (<[key := word]> (Settings.wake_word settings))
                        settings in
      Settings.save settings;;
      mret settings
  | None => mret settings
  end.

Definition openwakeword_words : list ItemType :=
  [Pair "ok_nabu" "ok nabu"; Pair "hey_jarvis" "hey jarvis";
   Pair "alexa" "alexa"; Pair "hey_mycroft" "hey mycroft";
   Pair "community" "Community Wake Words"].

Definition porcupine1_words : list ItemType := [Pair "porcupine" "porcupine"].

Definition snowboy_words : list ItemType :=
  [Pair "snowboy" "snowboy"; Pair "jarvis" "jarvis"; Pair "alexa" "alexa";
   Pair "smart_mirror" "smart mirror"; Pair "view_glass" "view glass";
   Pair "hey_extreme" "hey extreme"; Pair "neoya" "neoya";
   Pair "subex" "subex"].

(** [select_wake_word(settings)]: the four tests in the order of the
    source; the second and the third are the same test. *)
Definition select_wake_word (settings : Settings) : M Settings :=
  if bool_decide
       (Settings.wake_word_system settings = Some WakeWordSystem.OPENWAKEWORD) then
    choose_wake_word settings openwakeword_words WakeWordSystem.OPENWAKEWORD
  else if bool_decide
            (Settings.wake_word_system settings = Some WakeWordSystem.PORCUPINE1) then
    choose_wake_word settings openwakeword_words WakeWordSystem.OPENWAKEWORD
  else if bool_decide
            (Settings.wake_word_system settings = Some WakeWordSystem.PORCUPINE1) then
    choose_wake_word settings porcupine1_words WakeWordSystem.PORCUPINE1
  else if bool_decide
            (Settings.wake_word_system settings = Some WakeWordSystem.SNOWBOY) then
    choose_wake_word settings snowboy_words WakeWordSystem.SNOWBOY
  else mret settings.

(** ** Services *)

(** [str.isspace] on the ASCII range, and [s.strip()]. *)
Definition isspace (c : ascii) : bool :=
  let n := nat_of_ascii c in
  bool_decide (9 ≤ n ≤ 13) || bool_decide (28 ≤ n ≤ 32).

Fixpoint lstrip (s : string) : string :=
  match s with
  | "" => ""
  | String c rest => if isspace c then lstrip rest else s
  end.

Definition strip (s : string) : string :=
  String.rev (lstrip (String.rev (lstrip s))).

(** The line feed character, and the text [print] writes for a list of
    lines. *)
Definition newline : string := String "010" "".

Definition lines (l : list string) : string :=
  String.concat "" ((λ line, line +:+ newline) <$> l).

(** [generate_services(settings)]. *)
Definition generate_services (settings : Settings) : M unit :=
  match Settings.microphone_device settings with
  | None => msgbox "Please configure microphone"
  | Some microphone =>
      _PROGRAM_DIR ← ask (λ env _, program_dir env);
      services_dir ← ask (λ env _, _LOCAL_DIR env /> "services");
      emit (Mkdir services_dir);;
      user ← check_output ["id"; "--name"; "-u"];
      let user := strip user in
      group ← check_output ["id"; "--name"; "-g"];
      let group := strip group in
      let satellite_command :=
        [_PROGRAM_DIR /> "script" /> "run";
         "--name"; Settings.satellite_name settings;
         "--uri"; "tcp://0.0.0.0:10700";
         "--mic-command";
         "arecord -D " +:+ microphone
           +:+ " -q -r 16000 -c 1 -f S16_LE -t raw"] in
      let satellite_command :=
        if bool_decide (Settings.satellite_type settings = SatelliteType.VAD)
        then satellite_command ++ ["--vad"] else satellite_command in
      let satellite_command_str := shlex.join satellite_command in
      write_file (services_dir /> "wyoming-satellite.service")
        (lines ["[Unit]";
                "Description=Wyoming Satellite";
                "Wants=network-online.target";
                "After=network-online.target";
                "";
                "[Service]";
                "Type=simple";
                "User=" +:+ user;
                "Group=" +:+ group;
                "ExecStart=" +:+ satellite_command_str;
                "WorkingDirectory=" +:+ _PROGRAM_DIR;
                "Restart=always";
                "RestartSec=1";
                "";
                "[Install]";
                "WantedBy=default.target"]);;
      msgbox "Services generated"
  end.

(** ** Text read from other programs *)

(** The text of a [str] is held as its UTF-8 encoding, so
    [bytes.decode("utf-8")] changes nothing when it succeeds; the methods
    of [str] below read their characters off the encoding. *)
Module text.

Definition byte (c : ascii) : nat := nat_of_ascii c.

(** A continuation byte, [10xxxxxx]. *)
Definition continuation (c : ascii) : bool :=
  bool_decide (128 ≤ byte c ≤ 191).

(** Well-formed UTF-8, as the strict decoder accepts it: no stray or missing
    continuation byte, no overlong form, no surrogate, nothing above
    U+10FFFF. *)
Fixpoint well_formed (b : string) : bool :=
  match b with
  | "" => true
  | String c0 rest =>
      if bool_decide (byte c0 ≤ 127) then well_formed rest
      else if bool_decide (194 ≤ byte c0 ≤ 223) then
        match rest with
        | String c1 rest => continuation c1 && well_formed rest
        | _ => false
        end
      else if bool_decide (224 ≤ byte c0 ≤ 239) then
        match rest with
        | String c1 (String c2 rest) =>
            continuation c1 && continuation c2
            && negb (bool_decide (byte c0 = 224) && bool_decide (byte c1 < 160))
            && negb (bool_decide (byte c0 = 237) && bool_decide (160 ≤ byte c1))
            && well_formed rest
        | _ => false
        end
      else if bool_decide (240 ≤ byte c0 ≤ 244) then
        match rest with
        | String c1 (String c2 (String c3 rest)) =>
            continuation c1 && continuation c2 && continuation c3
            && negb (bool_decide (byte c0 = 240) && bool_decide (byte c1 < 144))
            && negb (bool_decide (byte c0 = 244) && bool_decide (144 ≤ byte c1))
            && well_formed rest
        | _ => false
        end
      else false
  end.

(** [b.decode("utf-8")]; [UnicodeDecodeError] is a [ValueError]. *)
Definition decode (b : string) : result string :=
  if well_formed b then Returned b else Raised ValueError.

(** The line boundaries of [str.splitlines] of one character: line feed,
    vertical tab, form feed, the three separators U+001C to U+001E (carriage
    return, with or without a line feed after it, is dealt with apart). *)
Definition linebreak (c : ascii) : bool :=
  bool_decide (byte c ∈ [10; 11; 12; 28; 29; 30]).

(** [s.splitlines()]: [line] is the line being read.  The boundaries of more
    than one byte are U+0085 ([C2 85]), U+2028 and U+2029 ([E2 80 A8],
    [E2 80 A9]). *)
Fixpoint splitlines_from (s : string) (line : string) : list string :=
  match s with
  | "" => if bool_decide (line = "") then [] else [line]
  | String c0 rest =>
      if bool_decide (byte c0 = 13) then
        match rest with
        | String c1 rest' =>
            if bool_decide (byte c1 = 10) then line :: splitlines_from rest' ""
            else line :: splitlines_from rest ""
        | "" => line :: splitlines_from rest ""
        end
      else if linebreak c0 then line :: splitlines_from rest ""
      else
        match rest with
        | String c1 rest' =>
            if bool_decide (byte c0 = 194) && bool_decide (byte c1 = 133)
            then line :: splitlines_from rest' ""
            else
              match rest' with
              | String c2 rest'' =>
                  if bool_decide (byte c0 = 226) && bool_decide (byte c1 = 128)
                     && bool_decide (byte c2 ∈ [168; 169])
                  then line :: splitlines_from rest'' ""
                  else splitlines_from rest (line +:+ String c0 "")
              | "" => splitlines_from rest (line +:+ String c0 "")
              end
        | "" => splitlines_from rest (line +:+ String c0 "")
        end
  end.

Definition splitlines (s : string) : list string := splitlines_from s "".

(** The white space of [str.isspace] by the length of its encoding: one
    byte; two bytes, U+0085 and U+00A0; three bytes, U+1680, U+2000 to
    U+200A, U+2028, U+2029, U+202F, U+205F and U+3000. *)
Definition space1 (c0 : ascii) : bool :=
  bool_decide (9 ≤ byte c0 ≤ 13) || bool_decide (28 ≤ byte c0 ≤ 32).

Definition space2 (c0 c1 : ascii) : bool :=
  bool_decide (byte c0 = 194) && bool_decide (byte c1 ∈ [133; 160]).

Definition space3 (c0 c1 c2 : ascii) : bool :=
  bool_decide (byte c0 = 225) && bool_decide (byte c1 = 154)
    && bool_decide (byte c2 = 128)
  || bool_decide (byte c0 = 226) && bool_decide (byte c1 = 128)
    && (bool_decide (128 ≤ byte c2 ≤ 138)
        || bool_decide (byte c2 ∈ [168; 169; 175]))
  || bool_decide (byte c0 = 226) && bool_decide (byte c1 = 129)
    && bool_decide (byte c2 = 159)
  || bool_decide (byte c0 = 227) && bool_decide (byte c1 = 128)
    && bool_decide (byte c2 = 128).

(** [s.lstrip()]. *)
Fixpoint lstrip (s : string) : string :=
  match s with
  | "" => ""
  | String c0 rest =>
      if space1 c0 then lstrip rest
      else
        match rest with
        | String c1 rest' =>
            if space2 c0 c1 then lstrip rest'
            else
              match rest' with
              | String c2 rest'' =>
                  if space3 c0 c1 c2 then lstrip rest'' else s
              | "" => s
              end
        | "" => s
        end
  end.

(** [s.rstrip()], on the text read backwards. *)
Fixpoint rstrip_rev (s : string) : string :=
  match s with
  | "" => ""
  | String c0 rest =>
      if space1 c0 then rstrip_rev rest
      else
        match rest with
        | String c1 rest' =>
            if space2 c1 c0 then rstrip_rev rest'
            else
              match rest' with
              | String c2 rest'' =>
                  if space3 c2 c1 c0 then rstrip_rev rest'' else s
              | "" => s
              end
        | "" => s
        end
  end.

Definition rstrip (s : string) : string :=
  String.rev (rstrip_rev (String.rev s)).

(** [s.strip()]. *)
Definition strip (s : string) : string := rstrip (lstrip s).

(** [s.startswith(prefix)]. *)
Definition startswith (s prefix : string) : bool := String.prefix prefix s.

End text.

(** ** Device lists *)

(** The loop of [get_microphone_devices] and [get_sound_devices] over the
    lines of the listing. *)
Definition plughw_devices (lines : list string) : list string :=
  foldl (λ devices line,
           let line := text.strip line in
           if text.startswith line "plughw:" then devices ++ [line]
           else devices)
        [] lines.

(** [get_microphone_devices()]. *)
Definition get_microphone_devices : M (list string) :=
  output ← check_output ["arecord"; "-L"];
  listing ← lift (text.decode output);
  mret (plughw_devices (text.splitlines listing)).

(** [get_sound_devices()]. *)
Definition get_sound_devices : M (list string) :=
  output ← check_output ["aplay"; "-L"];
  listing ← lift (text.decode output);
  mret (plughw_devices (text.splitlines listing)).

(** ** The other dialogs *)

(** [inputbox(text, init)]; [init or ""] is [""] for [None] and for [""]. *)
Definition inputbox (text : string) (init : option string)
    : M (option string) :=
  whiptail ["--inputbox"; text; HEIGHT; WIDTH; default "" init].

(** [paswordbox(text)]. *)
Definition paswordbox (text : string) : M (option string) :=
  whiptail ["--passwordbox"; text; HEIGHT; WIDTH].

(** [yesno(text)]. *)
Definition yesno (text : string) : M bool :=
  result ← whiptail ["--yesno"; text; HEIGHT; WIDTH];
  mret (negb (bool_decide (result = None))).

(** The truth value of an [Optional[str]]: [None] and [""] are false. *)
Definition truthy (value : option string) : bool :=
  match value with
  | Some s => negb (bool_decide (s = ""))
  | None => false
  end.

(** [pip_install( *args )]. *)
Definition pip_install (args : list string) : M (list string) :=
  _PROGRAM_DIR ← ask (λ env _, program_dir env);
  mret ([_PROGRAM_DIR /> ".venv" /> "bin" /> "pip3";
         "install";
         "--extra-index-url";
         "https://www.piwheels.org/simple";
         "-f";
         "https://synesthesiam.github.io/prebuilt-apps/"] ++ args).

(** ** The menus *)

(** [main_menu(settings)]. *)
Definition main_menu (settings : Settings) : M (option string) :=
  let items := [Pair "mic" "Configure Microphone";
                Pair "snd" "Configure Sound"] in
  let items :=
    if bool_decide (Settings.satellite_type settings = SatelliteType.WAKE)
    then items ++ [Pair "wake" "Configure Wake Word"] else items in
  let items := items ++ [Pair "name" "Set Satellite Name";
                         Pair "type" "Set Satellite Type";
                         Pair "generate" "Generate Services";
                         Pair "install" "Install Services"] in
  menu "Main Menu" items ["--ok-button"; "Select"; "--cancel-button"; "Exit"].

(** [microphone_menu()]. *)
Definition microphone_menu : M (option string) :=
  menu "Configure Microphone"
    [Pair "detect" "Autodetect";
     Pair "list" "Select From List";
     Pair "manual" "Enter Manually";
     Pair "respeaker" "Install ReSpeaker Drivers"]
    ["--ok-button"; "Select"; "--cancel-button"; "Back"].

(** [sound_menu()]. *)
Definition sound_menu : M (option string) :=
  menu "Configure Sound"
    [Pair "detect" "Autodetect";
     Pair "list" "Select From List";
     Pair "manual" "Enter Manually";
     Pair "disable" "Disable Sound";
     Pair "feedback" "Toggle Feedback Sounds"]
    ["--ok-button"; "Select"; "--cancel-button"; "Back"].

(** [wake_word_menu(settings)]. *)
Definition wake_word_menu (settings : Settings) : M (option string) :=
  let items := [Pair "system" "Select System"] in
  let items :=
    if negb (bool_decide (Settings.wake_word_system settings = None))
    then items ++ [Pair "wake_word" "Select Wake Word"] else items in
  menu "Configure Wake Word" items
    ["--ok-button"; "Select"; "--cancel-button"; "Back"].

(** ** Handlers with a menu loop *)

(** What a call of a handler comes to: it returns, leaving the settings
    object as given here; [sys.exit(code)] ends the program from inside it;
    or its loop is still running when the rounds the model was given are
    used up. *)
Inductive outcome :=
| Returns (settings : Settings)
| Exits (code : Z)
| Pending.

(** How one round of a [while True] loop ends: the loop goes on, or the
    call comes to something ([break] is [Stop (Returns settings)]). *)
Inductive flow :=
| Continue (settings : Settings)
| Stop (o : outcome).

(** [while True: round], for at most [fuel] rounds. *)
Fixpoint while_true (fuel : nat) (round : Settings → M flow)
    (settings : Settings) : M outcome :=
  match fuel with
  | O => mret Pending
  | S fuel =>
      next ← round settings;
      match next with
      | Continue settings => while_true fuel round settings
      | Stop o => mret o
      end
  end.

(** The message the ReSpeaker branch ends with. *)
Definition respeaker_done : string :=
  "Driver installation complete. "
  +:+ "Please reboot your Raspberry Pi and re-run the installer. "
  +:+ "Once rebooted, select the " +:+ String dquote "seeed"
  +:+ String dquote " microphone.".

(** One round of the loop of [configure_microphone(settings)]. *)
Definition configure_microphone_round (settings : Settings) : M flow :=
  choice ← microphone_menu;
  if bool_decide (choice = Some "detect") then
    devices ← get_microphone_devices;
    settings ← detect settings devices;
    mret (Continue settings)
  else if bool_decide (choice = Some "list") then
    devices ← get_microphone_devices;
    microphone_device ← radiolist "Select ALSA Device:" (Label <$> devices)
                          (Settings.microphone_device settings) [];
    if truthy microphone_device then
      let settings := Settings.set_microphone_device microphone_device settings in
      Settings.save settings;;
      mret (Continue settings)
    else mret (Continue settings)
  else if bool_decide (choice = Some "manual") then
    microphone_device ← inputbox "Enter ALSA Device:"
                          (Settings.microphone_device settings);
    if truthy microphone_device then
      let settings := Settings.set_microphone_device microphone_device settings in
      Settings.save settings;;
      mret (Continue settings)
    else mret (Continue settings)
  else if bool_decide (choice = Some "respeaker") then
    go ← yesno ("ReSpeaker drivers for the Raspberry Pi will now be compiled and installed. "
                +:+ "This will take a while and require a reboot. "
                +:+ "Continue?");
    if go : bool then
      password ← paswordbox "sudo password:";
      _PROGRAM_DIR ← ask (λ env _, program_dir env);
      run_with_gauge "Installing drivers..."
        [["sudo"; "-S"; _PROGRAM_DIR /> "etc" /> "install-respeaker-drivers.sh"]]
        password;;
      msgbox respeaker_done;;
      mret (Stop (Exits 0))
    else mret (Continue settings)
  else mret (Stop (Returns settings)).

(** [configure_microphone(settings)]. *)
Definition configure_microphone (fuel : nat) (settings : Settings)
    : M outcome :=
  while_true fuel configure_microphone_round settings.

(** One round of the loop of [configure_sound(settings)]. *)
Definition configure_sound_round (settings : Settings) : M flow :=
  choice ← sound_menu;
  if bool_decide (choice = Some "detect") then
    mret (Continue settings)
  else if bool_decide (choice = Some "list") then
    devices ← get_sound_devices;
    sound_device ← radiolist "Select ALSA Device:" (Label <$> devices)
                     (Settings.sound_device settings) [];
    if truthy sound_device then
      let settings := Settings.set_sound_device sound_device settings in
      Settings.save settings;;
      mret (Continue settings)
    else mret (Continue settings)
  else if bool_decide (choice = Some "manual") then
    sound_device ← inputbox "Enter ALSA Device:" (Settings.sound_device settings);
    if truthy sound_device then
      let settings := Settings.set_sound_device sound_device settings in
      Settings.save settings;;
      mret (Continue settings)
    else mret (Continue settings)
  else if bool_decide (choice = Some "disable") then
    let settings := Settings.set_sound_device None settings in
    Settings.save settings;;
    msgbox "Sound disabled";;
    mret (Continue settings)
  else if bool_decide (choice = Some "feedback") then
    feedback_sounds ← checklist "Enabled Sounds:"
                        [Pair "awake" "On wake-up";
                         Pair "done" "After voice command"]
                        (Settings.feedback_sounds settings) [];
    match feedback_sounds with
    | Some feedback_sounds =>
        let settings := Settings.set_feedback_sounds feedback_sounds settings in
        Settings.save settings;;
        mret (Continue settings)
    | None => mret (Continue settings)
    end
  else mret (Stop (Returns settings)).

(** [configure_sound(settings)]. *)
Definition configure_sound (fuel : nat) (settings : Settings) : M outcome :=
  while_true fuel configure_sound_round settings.

(** One round of the loop of [configure_wake_word(settings)]. *)
Definition configure_wake_word_round (settings : Settings) : M flow :=
  choice ← wake_word_menu settings;
  if bool_decide (choice = Some "system") then
    wake_word_system ← radiolist "Wake Word System:"
                         (Label <$> WakeWordSystem.values)
                         (Settings.wake_word_system settings) [];
    match wake_word_system with
    | Some wake_word_system =>
        settings ← install_wake_word settings wake_word_system;
        mret (Continue settings)
    | None => mret (Continue settings)
    end
  else if bool_decide (choice = Some "wake_word") then
    settings ← select_wake_word settings;
    mret (Continue settings)
  else mret (Stop (Returns settings)).

(** [configure_wake_word(settings)]. *)
Definition configure_wake_word (fuel : nat) (settings : Settings)
    : M outcome :=
  while_true fuel configure_wake_word_round settings.

(** ** Satellite *)

(** [set_satellite_name(settings)]. *)
Definition set_satellite_name (settings : Settings) : M Settings :=
  name ← inputbox "Satellite Name:" (Some (Settings.satellite_name settings));
  match name with
  | Some name =>
      if negb (bool_decide (name = "")) then
        let settings := Settings.set_satellite_name name settings in
        Settings.save settings;;
        mret settings
      else mret settings
  | None => mret settings
  end.

(** [set_satellite_type(settings)]; [installed] is false on the [return]
    after the error message. *)
Definition set_satellite_type (settings : Settings) : M Settings :=
  satellite_type ← radiolist "Satellite Type:"
                     [Pair SatelliteType.ALWAYS_STREAMING "Always streaming";
                      Pair SatelliteType.VAD "Voice activity detection";
                      Pair SatelliteType.WAKE "Local wake word detection"]
                     (Some (Settings.satellite_type settings)) [];
  installed ←
    (if bool_decide (satellite_type = Some SatelliteType.VAD) then
       _PROGRAM_DIR ← ask (λ env _, program_dir env);
       command ← pip_install ["-r"; _PROGRAM_DIR /> "requirements_vad.txt"];
       result ← run_with_gauge "Installing vad..." [command] None;
       if negb result then
         msgbox ("An error occurred while installed vad. "
                 +:+ "See local/installer.log for details.");;
         mret false
       else mret true
     else mret true);
  if installed : bool then
    match satellite_type with
    | Some satellite_type =>
        let settings := Settings.set_satellite_type satellite_type settings in
        Settings.save settings;;
        mret settings
    | None => mret settings
    end
  else mret settings.

(** ** Installing the services *)

(** The two batches of [install_services]. *)
Definition stop_commands : list (list string) :=
  (λ service, ["sudo"; "-S"; "systemctl"; "disable"; "--now";
               "wyoming-" +:+ service +:+ ".service"])
  <$> ["satellite"; "openwakeword"; "porcupine1"; "snowboy"].

Definition install_commands (services_dir : string) : list (list string) :=
  let installed_services := ["satellite"] in
  foldl (λ install_commands service,
           let service_filename := "wyoming-" +:+ service +:+ ".service" in
           install_commands
           ++ [["sudo"; "-S"; "cp"; services_dir /> service_filename;
                "/etc/systemd/system/"]]
           ++ [["sudo"; "-S"; "systemctl"; "enable"; "--now";
                service_filename]])
        [["sudo"; "-S"; "systemctl"; "daemon-reload"]]
        installed_services.

(** [install_services(settings)]. *)
Definition install_services (settings : Settings) : M unit :=
  services_dir ← ask (λ env _, _LOCAL_DIR env /> "services");
  let satellite_service_path := services_dir /> "wyoming-satellite.service" in
  there ← exists_ satellite_service_path;
  if negb there then msgbox "Please generate services"
  else
    password ← paswordbox "sudo password:";
    run_with_gauge "Stopping Services..." stop_commands password;;
    success ← run_with_gauge "Installing Services..."
                (install_commands services_dir) password;
    if success : bool then msgbox "Successfully installed services"
    else msgbox ("An error occurred while installing services. "
                 +:+ "See local/installer.log for details.").

(** ** The program *)

(** A handler's outcome, seen from the loop that called it. *)
Definition resume (o : outcome) : flow :=
  match o with
  | Returns settings => Continue settings
  | _ => Stop o
  end.

(** One round of the loop of [main()]; [fuel] bounds the loops of the
    handlers it calls. *)
Definition main_round (fuel : nat) (settings : Settings) : M flow :=
  choice ← main_menu settings;
  if bool_decide (choice = Some "mic") then
    o ← configure_microphone fuel settings;
    mret (resume o)
  else if bool_decide (choice = Some "snd") then
    o ← configure_sound fuel settings;
    mret (resume o)
  else if bool_decide (choice = Some "wake") then
    o ← configure_wake_word fuel settings;
    mret (resume o)
  else if bool_decide (choice = Some "name") then
    settings ← set_satellite_name settings;
    mret (Continue settings)
  else if bool_decide (choice = Some "type") then
    settings ← set_satellite_type settings;
    mret (Continue settings)
  else if bool_decide (choice = Some "generate") then
    generate_services settings;;
    mret (Continue settings)
  else if bool_decide (choice = Some "install") then
    install_services settings;;
    mret (Continue settings)
  else mret (Stop (Returns settings)).

(** [main()], logging apart.  [None]: the settings file holds a value of
    another type than its field declares (see [Settings.load]). *)
Definition main (fuel : nat) : M (option outcome) :=
  local_dir ← ask (λ env _, _LOCAL_DIR env);
  emit (Mkdir local_dir);;
  loaded ← Settings.load;
  match loaded with
  | None => mret None
  | Some settings =>
      venv_dir ← ask (λ env _, program_dir env /> ".venv");
      there ← exists_ venv_dir;
      (if negb there then
         setup ← ask (λ env _, program_dir env /> "script" /> "setup");
         run_with_gauge "Installing satellite base..." [[setup]] None;;
         mret tt
       else mret tt);;
      o ← while_true fuel (main_round fuel) settings;
      mret (Some o)
  end.

(** * Vocabulary of the statements *)

(** The world after more events. *)
Definition logged (w : World) (events : list event) : World :=
  {| settings_file := settings_file w;
     files := files w;
     log := log w ++ events |}.

(** whiptail, started with [argv] in world [w], exits with the return code
    and the text of [reply]. *)
Definition answers (env : Env) (w : World) (argv : list string)
    (reply : Z * string) : Prop :=
  spawns env (log w ++ [Popen argv false]) = true
  ∧ exits env (log w ++ [Popen argv false; Communicate None]) = reply.

(** ** The dialogs *)

(** The arguments [menu], [radiolist] and [checklist] hand to whiptail. *)
Definition menu_argv (text : string) (items : list ItemType)
    (args : list string) : list string :=
  ["whiptail"; "--title"; TITLE; "--notags"] ++ args
  ++ ["--menu"; text; HEIGHT; WIDTH; LIST_HEIGHT] ++ (menu_tables items).2.

Definition radiolist_tables (items : list ItemType)
    (selected_item : option string) : gmap string string * list string :=
  flag_tables (λ v, bool_decide (Some v = selected_item)) items.

Definition radiolist_argv (text : string) (items : list ItemType)
    (selected_item : option string) (args : list string) : list string :=
  ["whiptail"; "--title"; TITLE; "--notags"] ++ args
  ++ ["--radiolist"; text; HEIGHT; WIDTH; LIST_HEIGHT]
  ++ (radiolist_tables items selected_item).2.

Definition checklist_tables (items : list ItemType)
    (selected_items : list string) : gmap string string * list string :=
  flag_tables (λ v, bool_decide (v ∈ selected_items)) items.

Definition checklist_argv (text : string) (items : list ItemType)
    (selected_items args : list string) : list string :=
  ["whiptail"; "--title"; TITLE; "--notags"] ++ args
  ++ ["--checklist"; text; HEIGHT; WIDTH; LIST_HEIGHT]
  ++ (checklist_tables items selected_items).2.

(** A character with no meaning to the shell lexer, and a word of such
    characters. *)
Definition plain (c : ascii) : bool :=
  negb (shlex.whitespace c) && negb (shlex.quotes c) && negb (shlex.escape c).

Fixpoint all_plain (s : string) : bool :=
  match s with
  | "" => true
  | String c rest => plain c && all_plain rest
  end.

(** A tag as whiptail prints it: bare, or inside double quotes. *)
Definition printed (quoted : bool) (tag : string) : string :=
  if quoted then String dquote (tag +:+ String dquote "") else tag.

(** A text of white space only. *)
Fixpoint blank (s : string) : bool :=
  match s with
  | "" => true
  | String c rest => shlex.whitespace c && blank rest
  end.

(** Tags as whiptail prints a selection: separated by white space, with
    white space before and after at most. *)
Definition selection (quoted : bool) (lead sep trail : string)
    (tags : list string) : string :=
  lead +:+ join sep (printed quoted <$> tags) +:+ trail.

(** ** The probe *)


(** The dict [futures] after the submit loop, given each task's outcome in
    the order of submission. *)
Definition futures_of (devices : list string) (outcomes : list (result R))
    : list (string * result R) :=
  foldl (λ futures entry, dict_set entry.1 entry.2 futures) []
        (zip devices outcomes).

(** The device the autodetect branch settles on when the probes of
    [devices] return [scores]. *)
Definition detected (devices : list string) (scores : list R)
    : result (option string) :=
  best_of (futures_of devices (Returned <$> scores)) None None.

(** Position [i] holds the first of the loudest scores, and that score
    meets the threshold. *)
Definition first_loudest (scores : list R) (i : nat) : Prop :=
  ∃ s, scores !! i = Some s
     ∧ (_RECORD_RMS_MIN <= s)%R
     ∧ (∀ j s', j < i → scores !! j = Some s' → (s' < s)%R)
     ∧ (∀ j s', scores !! j = Some s' → (s' <= s)%R).

(** The selection rule: the candidate at the first-loudest position wins,
    and none is found exactly when no score meets the threshold. *)
Definition selects (devices : list string) (scores : list R)
    (selected : result (option string)) : Prop :=
  (∀ device, selected = Returned (Some device)
     ↔ ∃ i, devices !! i = Some device ∧ first_loudest scores i)
  ∧ (selected = Returned None
     ↔ Forall (λ s, (s < _RECORD_RMS_MIN)%R) scores).

(** A score that would replace the best so far. *)
Definition improves (best_rms : option R) (s : R) : Prop :=
  (_RECORD_RMS_MIN <= s)%R ∧ ∀ b, best_rms = Some b → (b < s)%R.

(** ** The command runner *)

(** What [_run_command] passes to [communicate]. *)
Definition proc_input (command : list string) (sudo_password : option string)
    : option string :=
  if bool_decide (command !! 0 = Some "sudo")
     && negb (bool_decide (sudo_password = None))
  then sudo_password else None.

(** What one run of [_run_command], started after [before], adds to the
    log, and what it returns: [true] when the command is not empty, its
    process starts and exits with code 0. *)
Definition command_events (env : Env) (before : list event)
    (command : list string) (sudo_password : option string) : list event :=
  if bool_decide (command = []) then []
  else if spawns env (before ++ [Popen command true])
       then [Popen command true; Communicate (proc_input command sudo_password)]
       else [Popen command true].

Definition command_ok (env : Env) (before : list event)
    (command : list string) (sudo_password : option string) : bool :=
  negb (bool_decide (command = []))
  && spawns env (before ++ [Popen command true])
  && bool_decide
       ((exits env (before ++ [Popen command true;
                               Communicate (proc_input command sudo_password)])).1
        = 0%Z).

(** The counter after one round of the waiting loop, and what [n] rounds
    print. *)
Definition step_percent (percent : Z) : Z :=
  let percent := (percent + 100 / 20)%Z in
  if bool_decide (percent > 100)%Z then 0%Z else percent.

Fixpoint printed_percents (n : nat) (percent : Z) : list Z :=
  match n with
  | O => []
  | S n => step_percent percent :: printed_percents n (step_percent percent)
  end.

(** The events of one round of the loop of [run_with_gauge]. *)
Definition round_events (env : Env) (before : list event)
    (command : list string) (sudo_password : option string) (percent : Z)
    : list event :=
  let started := [Submit command]
    ++ command_events env (before ++ [Submit command]) command sudo_password in
  started
  ++ (Gauge <$> printed_percents (polls env (before ++ started)) percent)
  ++ [Result (command_ok env (before ++ [Submit command]) command sudo_password)].

(** The commands handed to the pool, the results taken from it, the
    processes started and the inputs written to processes, each in log
    order. *)
Definition submitted (events : list event) : list (list string) :=
  omap (λ e, match e with Submit command => Some command | _ => None end)
       events.

Definition results (events : list event) : list bool :=
  omap (λ e, match e with Result ok => Some ok | _ => None end) events.

Definition spawned (events : list event) : list (list string) :=
  omap (λ e, match e with Popen argv _ => Some argv | _ => None end) events.

Definition inputs (events : list event) : list (option string) :=
  omap (λ e, match e with Communicate input => Some input | _ => None end)
       events.

(** No command is handed to the pool while another is in flight ([busy]),
    and every result taken is that of the command in flight. *)
Fixpoint one_at_a_time (busy : bool) (events : list event) : bool :=
  match events with
  | [] => negb busy
  | Submit _ :: events => negb busy && one_at_a_time true events
  | Result _ :: events => busy && one_at_a_time false events
  | _ :: events => one_at_a_time busy events
  end.

(** An event that neither submits a command nor takes a result. *)
Definition quiet (e : event) : Prop :=
  match e with
  | Submit _ | Result _ => False
  | _ => True
  end.

(** Every result in the log is what [_run_command] returned for the command
    at that position, run where it was submitted. *)
Definition faithful (env : Env) (before : list event)
    (sudo_password : option string) (commands : list (list string))
    (events : list event) : Prop :=
  ∀ i command ok,
    commands !! i = Some command → results events !! i = Some ok →
    ∃ earlier later,
      events = earlier ++ Submit command :: later
      ∧ submitted earlier = take i commands
      ∧ ok = command_ok env (before ++ earlier ++ [Submit command]) command
               sudo_password.

(** The gauge dialog of [run_with_gauge]. *)
Definition gauge_argv (text : string) : list string :=
  ["whiptail"; "--title"; TITLE; "--gauge"; text; HEIGHT; WIDTH; "0"].

(** ** The settings file *)

(** The world with another document, or none, in the settings file. *)
Definition with_settings_file (document : option json) (w : World) : World :=
  {| settings_file := document; files := files w; log := log w |}.


(** ** The other dialogs *)

Definition msgbox_argv (text : string) : list string :=
  ["whiptail"; "--title"; TITLE; "--msgbox"; text; HEIGHT; WIDTH].


Definition yesno_argv (text : string) : list string :=
  ["whiptail"; "--title"; TITLE; "--yesno"; text; HEIGHT; WIDTH].

Definition passwordbox_argv (text : string) : list string :=
  ["whiptail"; "--title"; TITLE; "--passwordbox"; text; HEIGHT; WIDTH].

(** The menu of [configure_microphone], as whiptail is started for it. *)
Definition microphone_menu_argv : list string :=
  menu_argv "Configure Microphone"
    [Pair "detect" "Autodetect";
     Pair "list" "Select From List";
     Pair "manual" "Enter Manually";
     Pair "respeaker" "Install ReSpeaker Drivers"]
    ["--ok-button"; "Select"; "--cancel-button"; "Back"].

(** The items of the radio list of [set_satellite_type]. *)
Definition satellite_types : list ItemType :=
  [Pair SatelliteType.ALWAYS_STREAMING "Always streaming";
   Pair SatelliteType.VAD "Voice activity detection";
   Pair SatelliteType.WAKE "Local wake word detection"].

(** ** The gauge *)

(** The percentages in the log, in the order they were printed. *)
Definition shown (events : list event) : list Z :=
  omap (λ e, match e with Gauge percent => Some percent | _ => None end)
       events.


(** A percentage a gauge can show: a multiple of 5 from 0 to 100. *)
Definition on_scale (percent : Z) : Prop :=
  (0 ≤ percent ≤ 100)%Z ∧ (5 | percent)%Z.

(** ** What a handler does to the settings *)

(** The files of the world are the same in [w] and [w']. *)
Definition same_store (w w' : World) : Prop :=
  settings_file w' = settings_file w ∧ files w' = files w.

(** From [settings] in world [w] to [settings'] in world [w'], the settings
    file has kept step with the object: either neither changed, or the file
    holds [settings']. *)
Definition in_step (settings : Settings) (w : World) (settings' : Settings)
    (w' : World) : Prop :=
  (settings' = settings ∧ settings_file w' = settings_file w)
  ∨ settings_file w' = Some (Settings.asdict settings').

(** [fields settings' settings] is [settings] with some fields taken from
    [settings']: which ones says what a handler may change. *)
Definition microphone_of (settings' settings : Settings) : Settings :=
  Settings.set_microphone_device (Settings.microphone_device settings')
    settings.

Definition sound_of (settings' settings : Settings) : Settings :=
  Settings.set_sound_device (Settings.sound_device settings')
    (Settings.set_feedback_sounds (Settings.feedback_sounds settings')
       settings).

Definition wake_word_of (settings' settings : Settings) : Settings :=
  Settings.set_wake_word_system (Settings.wake_word_system settings')
    (Settings.set_wake_word (Settings.wake_word settings') settings).

Definition name_of (settings' settings : Settings) : Settings :=
  Settings.set_satellite_name (Settings.satellite_name settings') settings.

Definition type_of (settings' settings : Settings) : Settings :=
  Settings.set_satellite_type (Settings.satellite_type settings') settings.

Class Lens (fields : Settings → Settings → Settings) : Prop := {
  lens_same settings : fields settings settings = settings;
  lens_twice a b c : fields a (fields b c) = fields a c;
}.

(** The handler changed at most the fields [fields] names, kept the
    settings file in step, and wrote no other file. *)
Definition touches (fields : Settings → Settings → Settings)
    (settings : Settings) (w : World) (settings' : Settings) (w' : World)
    : Prop :=
  in_step settings w settings' w'
  ∧ files w' = files w
  ∧ settings' = fields settings' settings.

(** [Q] holds of whatever [m] returns, and of the world it returns in. *)
Definition returning {A} (m : M A) (env : Env) (w : World)
    (Q : A → World → Prop) : Prop :=
  ∀ a w', m env w = (Returned a, w') → Q a w'.

(** [m] writes no file, whether it returns or raises. *)
Definition still {A} (m : M A) : Prop :=
  ∀ env w r w', m env w = (r, w') → same_store w w'.

(** [P] holds of the settings a round, or a whole call, leaves; the program
    is only ever exited with code 0. *)
Definition after_round (P : Settings → World → Prop) (next : flow)
    (w' : World) : Prop :=
  match next with
  | Continue settings' | Stop (Returns settings') => P settings' w'
  | Stop (Exits code) => code = 0%Z
  | Stop Pending => True
  end.

Definition after_call (P : Settings → World → Prop) (o : outcome)
    (w' : World) : Prop :=
  match o with
  | Returns settings' => P settings' w'
  | Exits code => code = 0%Z
  | Pending => True
  end.

(** ** Wake word engines *)

(** For openWakeWord and porcupine1: the directory of the engine under
    [_LOCAL_DIR], the wake word it starts with, and the settings once it is
    installed. *)
Definition engine_repo (wake_word_system : string) : string :=
  if bool_decide (wake_word_system = WakeWordSystem.OPENWAKEWORD)
  then "wyoming-openwakeword" else "wyoming-porcupine1".

Definition engine_dir (env : Env) (wake_word_system : string) : string :=
  _LOCAL_DIR env /> engine_repo wake_word_system.

Definition first_word (wake_word_system : string) : string :=
  if bool_decide (wake_word_system = WakeWordSystem.OPENWAKEWORD)
  then "ok_nabu" else "porcupine".

Definition with_engine (wake_word_system : string) (settings : Settings)
    : Settings :=
  Settings.set_wake_word
    (setdefault wake_word_system (first_word wake_word_system)
       (Settings.wake_word settings))
    (Settings.set_wake_word_system (Some wake_word_system) settings).

(** ** The service unit *)

(** The command the unit is to start. *)
Definition satellite_command (env : Env) (settings : Settings)
    (microphone : string) : list string :=
  [program_dir env /> "script" /> "run";
   "--name"; Settings.satellite_name settings;
   "--uri"; "tcp://0.0.0.0:10700";
   "--mic-command";
   "arecord -D " +:+ microphone +:+ " -q -r 16000 -c 1 -f S16_LE -t raw"]
  ++ (if bool_decide (Settings.satellite_type settings = SatelliteType.VAD)
      then ["--vad"] else []).

Definition service_path (env : Env) : string :=
  _LOCAL_DIR env /> "services" /> "wyoming-satellite.service".

(** The text of the unit file. *)
Definition unit_file (user group exec_start working_directory : string)
    : string :=
  lines ["[Unit]";
         "Description=Wyoming Satellite";
         "Wants=network-online.target";
         "After=network-online.target";
         "";
         "[Service]";
         "Type=simple";
         "User=" +:+ user;
         "Group=" +:+ group;
         "ExecStart=" +:+ exec_start;
         "WorkingDirectory=" +:+ working_directory;
         "Restart=always";
         "RestartSec=1";
         "";
         "[Install]";
         "WantedBy=default.target"].

(** ** Device listings *)

(** A character of a line of plain text: in the ASCII range and no line
    boundary. *)
Definition inline (c : ascii) : bool :=
  bool_decide (text.byte c ≤ 127) && negb (text.linebreak c)
  && negb (bool_decide (text.byte c = 13)).

Fixpoint all_inline (s : string) : bool :=
  match s with
  | "" => true
  | String c rest => inline c && all_inline rest
  end.

Definition plughw (device : string) : Prop :=
  text.startswith device "plughw:" = true.

#[global] Instance plughw_dec device : Decision (plughw device).
Proof. unfold plughw. apply _. Defined.

(** ** Concrete inputs *)

(** Items with a repeated value and a repeated label. *)
Definition repeated_items : list ItemType :=
  [Pair "awake" "Sound"; Pair "awake" "Sound"; Label "done"].

(** A world with no file and an empty log, and surroundings in which every
    process starts and every process but [bad] exits with code 0. *)
Definition empty_world : World :=
  {| settings_file := None; files := ∅; log := [] |}.

Definition failing_env (bad : list string) : Env :=
  {| program_dir := "/home/pi/wyoming-satellite";
     big_endian := false;
     spawns := λ _, true;
     exits := λ before,
       match reverse before with
       | _ :: Popen argv _ :: _ =>
           if bool_decide (argv = bad) then (1%Z, "failed") else (0%Z, "")
       | _ => (0%Z, "")
       end;
     polls := λ _, 1;
     present := λ _, false;
     outputs := λ _, Raised CalledProcessError |}.

(** Surroundings in which every process exits with code 0. *)
Definition working_env : Env := failing_env [].

Definition three_commands : list (list string) :=
  [["true"]; ["false"]; ["touch"; "third"]].

(** Surroundings in which whiptail prints [text] and exits with code 0. *)
Definition answering_env (text : string) : Env :=
  {| program_dir := "/home/pi/wyoming-satellite";
     big_endian := false;
     spawns := λ _, true;
     exits := λ _, (0%Z, text);
     polls := λ _, 0;
     present := λ _, false;
     outputs := λ _, Raised CalledProcessError |}.

(** Settings with openWakeWord selected and a word left over from
    porcupine1. *)
Definition stale_settings : Settings :=
  Settings.set_wake_word_system (Some WakeWordSystem.OPENWAKEWORD)
    (Settings.set_wake_word
       (<[WakeWordSystem.PORCUPINE1 := "porcupine"]>
          (<[WakeWordSystem.OPENWAKEWORD := "ok_nabu"]> ∅))
       Settings.defaults).

(** The dialogs among the events: the processes started without an input
    channel. *)
Definition dialogs (events : list event) : nat :=
  length (omap (λ e, match e with Popen _ false => Some () | _ => None end)
               events).

(** Surroundings that follow a script: every process starts; the dialogs
    are answered with [replies], one after the other, and cancelled once
    these are used up; every other process exits with [code]; every command
    run for its output gives [output]; every path asked about exists or not
    as [there] says. *)
Definition scripted_env (replies : list (Z * string)) (code : Z)
    (output : result string) (there : bool) : Env :=
  {| program_dir := "/home/pi/wyoming-satellite";
     big_endian := false;
     spawns := λ _, true;
     exits := λ before,
       match reverse before with
       | Communicate _ :: Popen _ false :: _ =>
           default (1%Z, "") (replies !! pred (dialogs before))
       | _ => (code, "")
       end;
     polls := λ _, 0;
     present := λ _, there;
     outputs := λ _, output |}.

(** Settings with a microphone, and a name the shell would split. *)
Definition kitchen_settings : Settings :=
  Settings.set_satellite_name "Kitchen's satellite"
    (Settings.set_microphone_device (Some "plughw:CARD=seeed2micvoicec,DEV=0")
       Settings.defaults).

(** A listing as [arecord -L] prints it. *)
Definition card_listing : list string :=
  ["null";
   "    Discard all samples (playback) or generate zero samples (capture)";
   "hw:CARD=Device,DEV=0";
   "    USB Audio Device, USB Audio";
   "plughw:CARD=Device,DEV=0";
   "    USB Audio Device, USB Audio";
   "  plughw:CARD=seeed2micvoicec,DEV=0  "].

(** Settings files: one that names no field but as [null], one that names
    the satellite, and the same with a field the program does not have. *)
Definition sparse_file : json :=
  JObj [("sound_device", JNull); ("volume", JNum 3)].

Definition named_file : json := JObj [("satellite_name", JStr "Kitchen")].

Definition padded_file : json :=
  JObj [("volume", JNum 3); ("satellite_name", JStr "Kitchen");
        ("sound_device", JNull)].

(** * Properties *)

(** ** Running computations *)

Ltac run :=
  unfold mbind, M_bind, mret, M_ret, raise, assert, lift, future_result;
  simpl.

Lemma logged_nil w : logged w [] = w.
Proof. destruct w. unfold logged. simpl. by rewrite app_nil_r. Qed.

Lemma logged_logged w a b : logged (logged w a) b = logged w (a ++ b).
Proof. unfold logged. simpl. by rewrite app_assoc. Qed.

(** One dialog: a process that fails to start raises, a non-zero return
    code is a cancel, anything else returns the text. *)
Lemma whiptail_run args env w :
  whiptail args env w =
    let argv := ["whiptail"; "--title"; TITLE] ++ args in
    if spawns env (log w ++ [Popen argv false]) then
      let reply := exits env (log w ++ [Popen argv false; Communicate None]) in
      (Returned (if bool_decide (reply.1 ≠ 0%Z) then None else Some reply.2),
       logged w [Popen argv false; Communicate None])
    else (Raised OSError, logged w [Popen argv false]).
Proof.
  unfold whiptail, subprocess_Popen, communicate, emit, ask, logged. run.
  destruct (spawns env _) eqn:E; simpl; [|done].
  rewrite <-!app_assoc. simpl.
  destruct (exits env _) as [rc err] eqn:E2. simpl.
  by case_bool_decide.
Qed.

Lemma msgbox_run text env w :
  msgbox text env w =
    let argv := ["whiptail"; "--title"; TITLE; "--msgbox"; text; HEIGHT; WIDTH] in
    if spawns env (log w ++ [Popen argv false])
    then (Returned tt, logged w [Popen argv false; Communicate None])
    else (Raised OSError, logged w [Popen argv false]).
Proof.
  unfold msgbox. run. rewrite whiptail_run. simpl.
  by destruct (spawns env _).
Qed.

(** ** Strings *)

Lemma string_app_cons c (s t : string) : String c s +:+ t = String c (s +:+ t).
Proof. reflexivity. Qed.

Lemma string_app_nil_r (s : string) : s +:+ "" = s.
Proof.
  induction s as [|c s IH]; [done|]. by rewrite string_app_cons, IH.
Qed.

Lemma string_app_assoc (a b c : string) : (a +:+ b) +:+ c = a +:+ (b +:+ c).
Proof.
  induction a as [|x a IH]; [done|]. by rewrite !string_app_cons, IH.
Qed.

Lemma str_inj i j : str i = str j → i = j.
Proof. apply pretty_nat_inj. Qed.

(** ** [shlex.split] on the tags whiptail prints *)

Lemma plain_cases c :
  plain c = true →
  shlex.whitespace c = false ∧ shlex.quotes c = false ∧ shlex.escape c = false
  ∧ c ≠ dquote.
Proof.
  unfold plain. intros [[Hw Hq]%andb_prop He]%andb_prop.
  apply negb_true_iff in Hw, Hq, He. split_and!; try done.
  intros ->. done.
Qed.

(** Inside a word, plain characters join the token. *)
Lemma read_word_plain t rest token quoted escapedstate :
  all_plain t = true →
  shlex.read (t +:+ rest) shlex.Word token quoted escapedstate
  = shlex.read rest shlex.Word (token +:+ t) quoted escapedstate.
Proof.
  revert token. induction t as [|c t IH]; intros token Ht.
  { by rewrite string_app_nil_r. }
  simpl in Ht. apply andb_prop in Ht as [Hc Ht].
  apply plain_cases in Hc as (Hw & Hq & He & _).
  simpl. rewrite Hw, Hq, He. rewrite IH by done.
  unfold shlex.add. by rewrite string_app_assoc.
Qed.

(** Inside double quotes too. *)
Lemma read_quote_plain t rest token quoted escapedstate :
  all_plain t = true →
  shlex.read (t +:+ rest) (shlex.Quote dquote) token quoted escapedstate
  = match t with
    | "" => shlex.read rest (shlex.Quote dquote) token quoted escapedstate
    | _ => shlex.read rest (shlex.Quote dquote) (token +:+ t) true escapedstate
    end.
Proof.
  revert token quoted. induction t as [|c t IH]; intros token quoted Ht; [done|].
  simpl in Ht. apply andb_prop in Ht as [Hc Ht].
  apply plain_cases in Hc as (Hw & Hq & He & Hd).
  simpl. rewrite bool_decide_eq_false_2 by done. rewrite He. simpl.
  rewrite IH by done. unfold shlex.add.
  destruct t; simpl; [done|]. by rewrite string_app_assoc.
Qed.

(** The lexer's steps at a double quote, a space and the end of the text. *)
Lemma read_open_quote rest token quoted escapedstate :
  shlex.read (String dquote rest) shlex.Space token quoted escapedstate
  = shlex.read rest (shlex.Quote dquote) token quoted escapedstate.
Proof. reflexivity. Qed.

Lemma read_close_quote rest token quoted escapedstate :
  shlex.read (String dquote rest) (shlex.Quote dquote) token quoted
    escapedstate
  = shlex.read rest shlex.Word token true escapedstate.
Proof. reflexivity. Qed.

(** White space between tokens is skipped; after a token it ends the
    token. *)
Lemma read_blank s rest :
  blank s = true →
  shlex.read (s +:+ rest) shlex.Space "" false shlex.Space
  = shlex.read rest shlex.Space "" false shlex.Space.
Proof.
  induction s as [|c s IH]; [done|]. simpl.
  intros [Hc Hs]%andb_prop. rewrite Hc. simpl. by apply IH.
Qed.

Lemma read_word_blank s rest token quoted escapedstate :
  blank s = true → s ≠ "" →
  shlex.nonempty token || quoted = true →
  shlex.read (s +:+ rest) shlex.Word token quoted escapedstate
  = result_map (cons token) (shlex.read rest shlex.Space "" false shlex.Space).
Proof.
  destruct s as [|c s]; [done|]. simpl.
  intros [Hc Hs]%andb_prop _ H. rewrite Hc, H. by rewrite read_blank.
Qed.

Lemma read_word_end s token quoted escapedstate :
  blank s = true →
  shlex.nonempty token || quoted = true →
  shlex.read s shlex.Word token quoted escapedstate = Returned [token].
Proof.
  intros Hs H. destruct (decide (s = "")) as [->|Hne].
  - simpl. destruct quoted; [done|].
    rewrite orb_false_r in H. by rewrite H.
  - rewrite <-(string_app_nil_r s). by rewrite read_word_blank.
Qed.

Lemma read_space_plain c rest quoted escapedstate :
  plain c = true →
  shlex.read (String c rest) shlex.Space "" quoted escapedstate
  = shlex.read rest shlex.Word (String c "") quoted escapedstate.
Proof.
  intros (Hw & Hq & He & _)%plain_cases. simpl. by rewrite Hw, Hq, He.
Qed.

Lemma nonempty_true t : t ≠ "" → shlex.nonempty t = true.
Proof. intros. unfold shlex.nonempty. by rewrite bool_decide_eq_false_2. Qed.

(** One printed tag, brought to the point where the lexer has read it. *)
Lemma read_printed quoted t rest :
  all_plain t = true → t ≠ "" →
  ∃ q e, shlex.nonempty t || q = true
  ∧ shlex.read (printed quoted t +:+ rest) shlex.Space "" false shlex.Space
    = shlex.read rest shlex.Word t q e.
Proof.
  intros Ht Hne. destruct quoted; unfold printed.
  - exists true, shlex.Space. split; [by rewrite orb_true_r|].
    rewrite string_app_cons, read_open_quote, string_app_assoc.
    rewrite read_quote_plain by done. destruct t as [|c t]; [done|].
    by rewrite string_app_cons, read_close_quote.
  - exists false, shlex.Space. split; [by rewrite nonempty_true|].
    destruct t as [|c t]; [done|]. simpl in Ht.
    apply andb_prop in Ht as [Hc Ht].
    rewrite string_app_cons, read_space_plain by done.
    by rewrite read_word_plain.
Qed.

(** A printed selection splits back into its tags. *)
Lemma split_selection quoted lead sep trail (tags : list string) :
  blank lead = true → blank sep = true → sep ≠ "" → blank trail = true →
  Forall (λ t, all_plain t = true ∧ t ≠ "") tags →
  shlex.split (selection quoted lead sep trail tags) = Returned tags.
Proof.
  intros Hlead Hsep Hne Htrail.
  unfold shlex.split, selection, join.
  rewrite read_blank by done.
  induction 1 as [|t tags [Ht Hnet] Htags IH].
  { change (shlex.read trail shlex.Space "" false shlex.Space = Returned []).
    rewrite <-(string_app_nil_r trail). by rewrite read_blank. }
  destruct tags as [|t' tags].
  - destruct (read_printed quoted t trail Ht Hnet) as (q & e & Hq & Hread).
    change (shlex.read (printed quoted t +:+ trail) shlex.Space "" false
              shlex.Space = Returned [t]).
    rewrite Hread. by apply read_word_end.
  - change (String.concat sep (printed quoted <$> t :: t' :: tags))
      with (printed quoted t
            +:+ sep +:+ String.concat sep (printed quoted <$> t' :: tags)).
    rewrite !string_app_assoc.
    destruct (read_printed quoted t
                (sep +:+ String.concat sep (printed quoted <$> t' :: tags)
                 +:+ trail)
                Ht Hnet) as (q & e & Hq & Hread).
    rewrite Hread, read_word_blank by done. by rewrite IH.
Qed.

(** A tag is a word of digits. *)
Lemma pretty_N_char_plain x : plain (pretty_N_char x) = true.
Proof. unfold pretty_N_char. repeat case_match; reflexivity. Qed.

Lemma pretty_N_go_plain x s :
  all_plain s = true → all_plain (pretty_N_go x s) = true.
Proof.
  revert s. induction (N.lt_wf_0 x) as [x _ IH]; intros s Hs.
  destruct (decide (x = 0)%N) as [->|Hx]; [by rewrite pretty_N_go_0|].
  rewrite pretty_N_go_step by lia.
  apply IH; [apply N.div_lt; lia|].
  simpl. by rewrite pretty_N_char_plain.
Qed.

Lemma pretty_N_go_nonempty x s : s ≠ "" → pretty_N_go x s ≠ "".
Proof.
  revert s. induction (N.lt_wf_0 x) as [x _ IH]; intros s Hs.
  destruct (decide (x = 0)%N) as [->|Hx]; [by rewrite pretty_N_go_0|].
  rewrite pretty_N_go_step by lia.
  apply IH; [apply N.div_lt; lia|done].
Qed.

Lemma str_plain i : all_plain (str i) = true ∧ str i ≠ "".
Proof.
  unfold str, pretty, pretty_nat, pretty, pretty_N.
  case_decide; [done|]. split.
  - by apply pretty_N_go_plain.
  - rewrite pretty_N_go_step by lia. by apply pretty_N_go_nonempty.
Qed.

(** ** The tag tables *)

Lemma enumerate_snoc {A} (l : list A) (x : A) :
  enumerate (l ++ [x]) = enumerate l ++ [(length l, x)].
Proof. unfold enumerate. rewrite imap_app. simpl. by rewrite Nat.add_0_r. Qed.

(** After the loop, tag [str i] is filed with the value of the item at
    position [i] and with nothing else, and the arguments list the tags in
    order. *)
Lemma menu_tables_spec (items : list ItemType) :
  (∀ i, (menu_tables items).1 !! str i = item_value <$> items !! i)
  ∧ (menu_tables items).2
    = mjoin (imap (λ i item, [str i; item_label item]) items).
Proof.
  unfold menu_tables.
  induction items as [|item items [IHmap IHargs]] using rev_ind.
  { split; [intros i; simpl; by rewrite lookup_empty | done]. }
  rewrite enumerate_snoc, foldl_snoc.
  destruct (foldl menu_step _ (enumerate items)) as [item_map item_args].
  simpl in *. split.
  - intros i. destruct (decide (i = length items)) as [->|Hne].
    + rewrite lookup_insert_eq. by rewrite list_lookup_middle.
    + rewrite lookup_insert_ne by (intros ?%str_inj; done).
      rewrite IHmap.
      destruct (decide (i < length items)).
      * by rewrite lookup_app_l.
      * by rewrite !lookup_ge_None_2 by (rewrite ?length_app; simpl; lia).
  - rewrite imap_app, join_app. simpl. rewrite Nat.add_0_r, ?app_nil_r.
    rewrite IHargs. by rewrite <-?app_assoc.
Qed.

Lemma flag_tables_spec selected (items : list ItemType) :
  (∀ i, (flag_tables selected items).1 !! str i = item_value <$> items !! i)
  ∧ (flag_tables selected items).2
    = mjoin (imap (λ i item, [str i; item_label item;
                              if selected (item_value item) : bool
                              then "1" else "0"]) items).
Proof.
  unfold flag_tables.
  induction items as [|item items [IHmap IHargs]] using rev_ind.
  { split; [intros i; simpl; by rewrite lookup_empty | done]. }
  rewrite enumerate_snoc, foldl_snoc.
  destruct (foldl (flag_step selected) _ (enumerate items))
    as [item_map item_args].
  simpl in *. split.
  - intros i. destruct (decide (i = length items)) as [->|Hne].
    + rewrite lookup_insert_eq. by rewrite list_lookup_middle.
    + rewrite lookup_insert_ne by (intros ?%str_inj; done).
      rewrite IHmap.
      destruct (decide (i < length items)).
      * by rewrite lookup_app_l.
      * by rewrite !lookup_ge_None_2 by (rewrite ?length_app; simpl; lia).
  - rewrite imap_app, join_app. simpl. rewrite Nat.add_0_r, ?app_nil_r.
    rewrite IHargs. by rewrite <-?app_assoc.
Qed.

(** Tags of positions decode to the values at those positions. *)
Lemma decode_tags (item_map : gmap string string) (items : list ItemType)
    (positions : list nat) (chosen : list ItemType) :
  (∀ i, item_map !! str i = item_value <$> items !! i) →
  Forall2 (λ i item, items !! i = Some item) positions chosen →
  (λ tag, default tag (item_map !! tag)) <$> (str <$> positions)
  = item_value <$> chosen.
Proof.
  intros Hmap. induction 1 as [|i item positions chosen Hitem _ IH]; [done|].
  rewrite !fmap_cons, Hmap, Hitem, IH. done.
Qed.

(** ** The list dialogs *)

Lemma menu_run text items args env w :
  items ≠ [] →
  menu text items args env w =
    let argv := menu_argv text items args in
    if spawns env (log w ++ [Popen argv false]) then
      let reply := exits env (log w ++ [Popen argv false; Communicate None]) in
      (Returned (if bool_decide (reply.1 ≠ 0%Z) then None
                 else (menu_tables items).1 !! reply.2),
       logged w [Popen argv false; Communicate None])
    else (Raised OSError, logged w [Popen argv false]).
Proof.
  intros Hitems. unfold menu, menu_argv. run.
  rewrite bool_decide_eq_false_2 by done. simpl.
  destruct (menu_tables items) as [item_map item_args]. simpl.
  rewrite whiptail_run. simpl.
  destruct (spawns env _); [|done].
  by case_bool_decide.
Qed.

Lemma radiolist_run text items selected_item args env w :
  items ≠ [] →
  radiolist text items selected_item args env w =
    let argv := radiolist_argv text items selected_item args in
    let item_map := (radiolist_tables items selected_item).1 in
    if spawns env (log w ++ [Popen argv false]) then
      let reply := exits env (log w ++ [Popen argv false; Communicate None]) in
      (Returned (if bool_decide (reply.1 ≠ 0%Z) then None
                 else Some (default reply.2 (item_map !! reply.2))),
       logged w [Popen argv false; Communicate None])
    else (Raised OSError, logged w [Popen argv false]).
Proof.
  intros Hitems. unfold radiolist, radiolist_argv, radiolist_tables. run.
  rewrite bool_decide_eq_false_2 by done. simpl.
  destruct (flag_tables _ items) as [item_map item_args]. simpl.
  rewrite whiptail_run. simpl.
  destruct (spawns env _); [|done].
  by case_bool_decide.
Qed.

Lemma checklist_run text items selected_items args env w :
  items ≠ [] →
  checklist text items selected_items args env w =
    let argv := checklist_argv text items selected_items args in
    let item_map := (checklist_tables items selected_items).1 in
    if spawns env (log w ++ [Popen argv false]) then
      let reply := exits env (log w ++ [Popen argv false; Communicate None]) in
      (if bool_decide (reply.1 ≠ 0%Z) then Returned None
       else match shlex.split reply.2 with
            | Returned tags =>
                Returned (Some ((λ tag, default tag (item_map !! tag)) <$> tags))
            | Raised e => Raised e
            end,
       logged w [Popen argv false; Communicate None])
    else (Raised OSError, logged w [Popen argv false]).
Proof.
  intros Hitems. unfold checklist, checklist_argv, checklist_tables. run.
  rewrite bool_decide_eq_false_2 by done. simpl.
  destruct (flag_tables _ items) as [item_map item_args]. simpl.
  rewrite whiptail_run. simpl.
  destruct (spawns env _); [|done].
  case_bool_decide; [done|].
  by destruct (shlex.split _).
Qed.

(** C3.  ChoiceCodec round trip.  For a non-empty list of items, labels
    or (value, label) pairs, repeated or not: the arguments built for the
    dialog carry, for the item at position [i], the tag [str i] followed by
    its label (and its flag); when whiptail answers a menu with the tag of a
    position, [menu] returns the value of the item at that position; when it
    answers a check list with the tags of some positions, bare or quoted and
    separated by white space, [checklist] returns the values of the items
    at those positions, in that order. *)
Theorem choice_codec_round_trip (items : list ItemType) :
  items ≠ [] →
  (menu_tables items).2
    = mjoin (imap (λ i item, [str i; item_label item]) items)
  ∧ (∀ selected,
       (flag_tables selected items).2
       = mjoin (imap (λ i item, [str i; item_label item;
                                 if selected (item_value item) : bool
                                 then "1" else "0"]) items))
  ∧ (∀ text args env w i item,
       items !! i = Some item →
       answers env w (menu_argv text items args) (0%Z, str i) →
       (menu text items args env w).1 = Returned (Some (item_value item)))
  ∧ (∀ text selected_items args env w quoted lead sep trail positions chosen,
       Forall2 (λ i item, items !! i = Some item) positions chosen →
       blank lead = true → blank sep = true → sep ≠ "" → blank trail = true →
       answers env w (checklist_argv text items selected_items args)
         (0%Z, selection quoted lead sep trail (str <$> positions)) →
       (checklist text items selected_items args env w).1
       = Returned (Some (item_value <$> chosen))).
Proof.
  intros Hitems. split_and!.
  - apply menu_tables_spec.
  - intros selected. apply flag_tables_spec.
  - intros text args env w i item Hitem [Hstarted Hreply].
    rewrite menu_run by done. simpl. rewrite Hstarted, Hreply. simpl.
    destruct (menu_tables_spec items) as [-> _]. by rewrite Hitem.
  - intros text selected_items args env w quoted lead sep trail positions
      chosen Hchosen Hlead Hsep Hne Htrail [Hstarted Hreply].
    rewrite checklist_run by done. simpl. rewrite Hstarted, Hreply. simpl.
    rewrite split_selection; [|done..|].
    + do 2 f_equal. eapply decode_tags; [|done]. apply flag_tables_spec.
    + apply Forall_fmap, Forall_forall. intros i _. apply str_plain.
Qed.

Lemma choice_codec_round_trip_witness :
  (menu_tables repeated_items).2
    = mjoin (imap (λ i item, [str i; item_label item]) repeated_items)
  ∧ (∀ selected,
       (flag_tables selected repeated_items).2
       = mjoin (imap (λ i item, [str i; item_label item;
                                 if selected (item_value item) : bool
                                 then "1" else "0"]) repeated_items))
  ∧ (∀ text args env w i item,
       repeated_items !! i = Some item →
       answers env w (menu_argv text repeated_items args) (0%Z, str i) →
       (menu text repeated_items args env w).1
       = Returned (Some (item_value item)))
  ∧ (∀ text selected_items args env w quoted lead sep trail positions chosen,
       Forall2 (λ i item, repeated_items !! i = Some item) positions chosen →
       blank lead = true → blank sep = true → sep ≠ "" → blank trail = true →
       answers env w (checklist_argv text repeated_items selected_items args)
         (0%Z, selection quoted lead sep trail (str <$> positions)) →
       (checklist text repeated_items selected_items args env w).1
       = Returned (Some (item_value <$> chosen))).
Proof.
  apply (choice_codec_round_trip repeated_items).
  discriminate.
Defined.

(** A check list of the repeated items answered with the quoted tags of
    positions 2 and 1. *)
Example checklist_decodes_by_position :
  (checklist "Enabled Sounds:" repeated_items [] []
     (answering_env (printed true "2" +:+ " " +:+ printed true "1"))
     empty_world).1
  = Returned (Some ["done"; "awake"]).
Proof. vm_compute. reflexivity. Qed.

(** C7.  [checklist] returns [None] exactly when the dialog was shown and
    whiptail exited with a non-zero code; when whiptail exits with code 0
    and prints no tag (nothing, or white space only), it returns the empty
    list, which is another value than [None]. *)
Theorem checklist_cancel_or_empty text items selected_items args env w :
  let argv := checklist_argv text items selected_items args in
  let started := spawns env (log w ++ [Popen argv false]) in
  let reply := exits env (log w ++ [Popen argv false; Communicate None]) in
  let answer := (checklist text items selected_items args env w).1 in
  (answer = Returned None ↔ items ≠ [] ∧ started = true ∧ reply.1 ≠ 0%Z)
  ∧ (items ≠ [] → started = true → reply.1 = 0%Z → blank reply.2 = true →
     answer = Returned (Some []))
  ∧ Returned (@None (list string)) ≠ Returned (Some []).
Proof.
  intros argv started reply answer. split; [|split; [|done]].
  - subst answer. destruct (decide (items = [])) as [->|Hitems].
    { by split; [|intros [? _]]. }
    rewrite checklist_run by done. simpl. fold argv started.
    destruct started; simpl; [|by split; [|intros (_ & ? & _)]].
    fold reply. case_bool_decide; [done|].
    destruct (shlex.split _); split; try done; by intros (_ & _ & ?).
  - intros Hitems Hstarted Hcode Hblank. subst answer.
    rewrite checklist_run by done. simpl. fold argv started reply.
    rewrite Hstarted, Hcode. simpl.
    pose proof (split_selection false reply.2 " " "" [] Hblank eq_refl
                  ltac:(done) eq_refl ltac:(done)) as Hsplit.
    unfold selection, join in Hsplit. simpl in Hsplit.
    rewrite !string_app_nil_r in Hsplit. by rewrite Hsplit.
Qed.

(** ** The settings store *)

Lemma save_run self env w :
  Settings.save self env w =
    (Returned tt,
     {| settings_file := Some (Settings.asdict self);
        files := files w;
        log := log w ++ [Mkdir (_LOCAL_DIR env)] |}).
Proof. done. Qed.

Lemma as_str_list_strings (l : list string) :
  as_str_list (JArr (JStr <$> l)) = Some l.
Proof. unfold as_str_list. by apply mapM_fmap_Some. Qed.

Lemma as_str_dict_fold (l : list (string * string)) (d : gmap string string) :
  foldl (λ acc kv, d ← acc; s ← as_str kv.2; Some (<[kv.1 := s]> d))
        (Some d) ((λ kv : string * string, (kv.1, JStr kv.2)) <$> l)
  = Some (foldl (λ d kv, <[kv.1 := kv.2]> d) d l).
Proof.
  revert d. induction l as [|[k v] l IH]; intros d; [done|].
  simpl. apply IH.
Qed.

(** Filing members one by one, the last value for a name winning, gives
    what [list_to_map] gives when no name repeats. *)
Lemma foldl_insert_lookup (l : list (string * string))
    (d : gmap string string) k :
  NoDup l.*1 →
  foldl (λ d kv, <[kv.1 := kv.2]> d) d l !! k
  = match (list_to_map l : gmap string string) !! k with
    | Some v => Some v
    | None => d !! k
    end.
Proof.
  revert d. induction l as [|[k' v] l IH]; intros d Hnd; [done|].
  simpl in *. apply NoDup_cons in Hnd as [Hk' Hnd].
  rewrite IH by done.
  destruct (decide (k' = k)) as [->|Hne].
  - rewrite lookup_insert_eq.
    rewrite (not_elem_of_list_to_map_1 _ k) by done. by rewrite lookup_insert_eq.
  - rewrite !lookup_insert_ne by done. done.
Qed.

Lemma as_str_dict_map (m : gmap string string) :
  as_str_dict (JObj ((λ kv : string * string, (kv.1, JStr kv.2))
                       <$> map_to_list m)) = Some m.
Proof.
  unfold as_str_dict. rewrite as_str_dict_fold. f_equal.
  apply map_eq. intros k.
  rewrite foldl_insert_lookup by apply NoDup_fst_map_to_list.
  rewrite list_to_map_to_list, lookup_empty. by destruct (m !! k).
Qed.


(** Settings with a word left over from an engine that is not selected. *)
Example stale_word_survives :
  (Settings.load working_env
     (Settings.save stale_settings working_env empty_world).2).1
  = Returned (Some stale_settings).
Proof. vm_compute. reflexivity. Qed.

(** ** The probe *)

(** [_record_proc] returns, whatever the capture does. *)
Lemma _record_proc_run device env w :
  _record_proc device env w =
    (Returned
       match outputs env (log w ++ [CheckOutput (arecord device)]) with
       | Returned audio =>
           match array_h (big_endian env) audio with
           | Returned audio_array =>
               match rms_of audio_array with
               | Returned rms => rms
               | Raised _ => 0%R
               end
           | Raised _ => 0%R
           end
       | Raised _ => 0%R
       end,
     logged w [CheckOutput (arecord device)]).
Proof.
  unfold _record_proc, try_except, check_output, emit, ask. run.
  destruct (outputs env _) as [audio|e]; simpl; [|done].
  destruct (array_h _ audio) as [audio_array|e]; simpl; [|done].
  by destruct (rms_of audio_array).
Qed.




(** ** Autodetection *)

Lemma dict_set_fresh {V} key (value : V) d :
  key ∉ d.*1 → dict_set key value d = d ++ [(key, value)].
Proof.
  induction d as [|[k v] d IH]; [done|].
  simpl. intros [Hne Hd]%not_elem_of_cons.
  rewrite bool_decide_eq_false_2 by done. by rewrite IH.
Qed.

(** Distinct devices each get an entry of their own, in the order of the
    list. *)
Lemma futures_of_distinct devices outcomes :
  NoDup devices → length devices = length outcomes →
  futures_of devices outcomes = zip devices outcomes.
Proof.
  unfold futures_of.
  cut (∀ futures, NoDup (futures.*1 ++ devices) →
         length devices = length outcomes →
         foldl (λ futures entry, dict_set entry.1 entry.2 futures) futures
               (zip devices outcomes)
         = futures ++ zip devices outcomes).
  { intros Hcut ??. by apply (Hcut []). }
  revert outcomes. induction devices as [|device devices IH];
    intros [|outcome outcomes] futures Hnd Hlen; simplify_eq/=.
  { by rewrite app_nil_r. }
  apply NoDup_app in Hnd as (Hf & Hdisj & [Hdev Hnd]%NoDup_cons).
  rewrite dict_set_fresh by (intros ?; eapply Hdisj; [done|left]).
  rewrite IH; [by rewrite <-app_assoc| |done].
  rewrite fmap_app. simpl. rewrite <-app_assoc. simpl.
  apply NoDup_app. split_and!; [done| |by constructor].
  intros k Hk. by apply Hdisj.
Qed.

(** The loop over the entries: either no score replaces the best so far,
    or the entry kept is the first of the loudest among those that do. *)
Lemma best_of_spec (devices : list string) (scores : list R)
    (best_device : option string) (best_rms : option R) :
  length devices = length scores →
  ∃ selected,
    best_of (zip devices (Returned <$> scores)) best_device best_rms
    = Returned selected
    ∧ ((selected = best_device ∧ Forall (λ s, ¬ improves best_rms s) scores)
       ∨ (∃ i device s,
            devices !! i = Some device ∧ scores !! i = Some s
            ∧ selected = Some device ∧ improves best_rms s
            ∧ (∀ j s', j < i → scores !! j = Some s' → (s' < s)%R)
            ∧ (∀ j s', scores !! j = Some s' → (s' <= s)%R))).
Proof.
  revert scores best_device best_rms.
  induction devices as [|device devices IH];
    intros [|s0 scores] best_device best_rms Hlen; simplify_eq/=.
  { eexists. split; [done|]. by left. }
  assert (∀ bd br,
    (¬ improves best_rms s0 ∨ (br = Some s0 ∧ improves best_rms s0)) →
    (¬ improves best_rms s0 → bd = best_device ∧ br = best_rms) →
    (improves best_rms s0 → bd = Some device) →
    ∃ selected, best_of (zip devices (Returned <$> scores)) bd br
                = Returned selected
      ∧ ((selected = best_device
          ∧ Forall (λ s, ¬ improves best_rms s) (s0 :: scores))
         ∨ (∃ i device' s,
              (device :: devices) !! i = Some device'
              ∧ (s0 :: scores) !! i = Some s
              ∧ selected = Some device' ∧ improves best_rms s
              ∧ (∀ j s', j < i → (s0 :: scores) !! j = Some s' → (s' < s)%R)
              ∧ (∀ j s', (s0 :: scores) !! j = Some s' → (s' <= s)%R))))
    as Hstep.
  { intros bd br Hcase Hkeep Htake.
    destruct (IH scores bd br Hlen) as (selected & -> & Hsel).
    exists selected. split; [done|].
    destruct Hsel as [[-> Hnone]
                     |(i & d & s & Hd & Hs & -> & [Hmin Hb] & Hbefore & Hall)].
    - destruct Hcase as [Hno|[-> Himp]].
      + destruct (Hkeep Hno) as [-> ->]. left. split; [done|by constructor].
      + right. exists 0, device, s0. rewrite (Htake Himp).
        split_and!; [done|done|done|done|intros; lia|].
        intros [|j] s'; simpl; [intros [= ->]; lra|]. intros Hj.
        rewrite Forall_forall in Hnone.
        destruct (Rle_dec s' s0) as [|Hgt]; [done|]. exfalso.
        apply (Hnone s'); [by eapply list_elem_of_lookup_2|].
        destruct Himp as [Hmin0 _]. split; [lra|]. intros b [= <-]. lra.
    - right. exists (S i), d, s.
      assert (s0 < s)%R as Hlt.
      { destruct Hcase as [Hno|[-> Himp]]; [|by apply Hb].
        destruct (Hkeep Hno) as [-> ->].
        destruct (Rlt_dec s0 s) as [|Hge]; [done|]. exfalso. apply Hno.
        split; [lra|]. intros b Hbest. specialize (Hb b Hbest). lra. }
      split_and!; [done|done|done| | |].
      + split; [done|]. intros b Hbest.
        destruct Hcase as [Hno|[-> [_ Himp]]].
        * destruct (Hkeep Hno) as [-> ->]. by apply Hb.
        * specialize (Himp b Hbest). lra.
      + intros [|j] s'; simpl; [intros _ [= ->]; done|].
        intros Hj. apply Hbefore. lia.
      + intros [|j] s'; simpl; [intros [= ->]; lra|]. apply Hall. }
  destruct (Rlt_dec s0 _RECORD_RMS_MIN) as [Hlow|Hhigh].
  { apply Hstep; [left|done|]; intros [? _]; lra. }
  destruct best_rms as [b|].
  - destruct (Rgt_dec s0 b) as [Hgt|Hle].
    + assert (improves (Some b) s0) as Himp.
      { split; [lra|]. by intros ? [= <-]. }
      apply Hstep; [by right|done|done].
    + apply Hstep; [left|done|]; intros [_ Hb]; specialize (Hb b eq_refl); lra.
  - assert (improves None s0) as Himp by (split; [lra|done]).
    apply Hstep; [by right|done|done].
Qed.

Lemma improves_none s : improves None s ↔ (_RECORD_RMS_MIN <= s)%R.
Proof. unfold improves. split; [by intros [? _]|done]. Qed.

(** C2, amended.  For candidates with pairwise distinct identifiers, the
    probe selects the candidate at the first position whose score meets the
    threshold, is strictly greater than every earlier score and is not
    exceeded by any score (so the earlier of two equal loudest candidates
    wins), and it finds none exactly when every score is below the
    threshold. *)
Theorem detect_selects_first_loudest (devices : list string)
    (scores : list R) :
  NoDup devices → length devices = length scores →
  selects devices scores (detected devices scores).
Proof.
  intros Hnd Hlen. unfold detected.
  rewrite futures_of_distinct by (by rewrite ?length_fmap).
  destruct (best_of_spec devices scores None None Hlen)
    as (selected & -> & Hsel).
  split.
  - intros device. split.
    + intros [= ->].
      destruct Hsel as [[[=] _]|(i & d & s & Hd & Hs & [= <-] & Hi & Hb & Ha)].
      exists i. split; [done|]. exists s. by rewrite <-improves_none.
    + intros (i & Hd & s & Hs & Hmin & Hbefore & Hall).
      destruct Hsel
        as [[_ Hnone]|(i' & d & s' & Hd' & Hs' & -> & _ & Hb' & Ha')].
      { rewrite Forall_forall in Hnone. exfalso.
        apply (Hnone s); [by eapply list_elem_of_lookup_2|].
        by apply improves_none. }
      assert (i = i') as <-; [|by simplify_eq].
      destruct (Nat.lt_trichotomy i i') as [Hlt|[->|Hgt]]; [|done|].
      * pose proof (Hb' _ _ Hlt Hs). pose proof (Hall _ _ Hs'). lra.
      * pose proof (Hbefore _ _ Hgt Hs'). pose proof (Ha' _ _ Hs). lra.
  - split.
    + intros [= ->].
      destruct Hsel as [[_ Hnone]|(? & ? & ? & _ & _ & [=] & _)].
      eapply Forall_impl; [done|]. intros s Hs. simpl in Hs.
      rewrite improves_none in Hs. lra.
    + intros Hlow.
      destruct Hsel as [[-> _]|(i & d & s & _ & Hs & _ & [Hmin _] & _)];
        [done|].
      rewrite Forall_forall in Hlow.
      pose proof (Hlow s (list_elem_of_lookup_2 _ _ _ Hs)). lra.
Qed.

(** Two candidates with the same loudest score: the first is selected. *)
Lemma detect_selects_first_loudest_witness :
  selects ["plughw:CARD=A"; "plughw:CARD=B"] [50; 50]%R
    (detected ["plughw:CARD=A"; "plughw:CARD=B"] [50; 50]%R).
Proof.
  apply (detect_selects_first_loudest
           ["plughw:CARD=A"; "plughw:CARD=B"] [50; 50]%R).
  - apply (bool_decide_unpack (NoDup _)). vm_compute. exact I.
  - reflexivity.
Defined.

(** C2 as stated fails when an identifier repeats in the candidate list:
    [futures] is keyed by identifier, so the second probe of
    ["plughw:CARD=A"] takes the place of the first, the loudest score (60,
    at position 0) is lost, and the candidate scoring 50 is selected. *)
Lemma detect_repeated_device :
  detected ["plughw:CARD=A"; "plughw:CARD=B"; "plughw:CARD=A"] [60; 50; 10]%R
  = Returned (Some "plughw:CARD=B")
  ∧ first_loudest [60; 50; 10]%R 0
  ∧ ¬ selects ["plughw:CARD=A"; "plughw:CARD=B"; "plughw:CARD=A"]
        [60; 50; 10]%R
        (detected ["plughw:CARD=A"; "plughw:CARD=B"; "plughw:CARD=A"]
           [60; 50; 10]%R).
Proof.
  assert (detected ["plughw:CARD=A"; "plughw:CARD=B"; "plughw:CARD=A"]
            [60; 50; 10]%R
          = Returned (Some "plughw:CARD=B")) as Hrun.
  { unfold detected, futures_of. simpl. unfold _RECORD_RMS_MIN.
    destruct (Rlt_dec 10 30); [|lra].
    destruct (Rlt_dec 50 30); [lra|]. done. }
  assert (first_loudest [60; 50; 10]%R 0) as Hfirst.
  { exists 60%R. unfold _RECORD_RMS_MIN. split_and!; [done|lra|intros; lia|].
    intros [|[|[|j]]] s'; simpl; intros [= <-]; lra. }
  split_and!; [done|done|].
  rewrite Hrun. intros [Hsome _].
  destruct (Hsome "plughw:CARD=A") as [_ Hback].
  by specialize (Hback (ex_intro _ 0 (conj eq_refl Hfirst))).
Qed.

(** The three selections the specification lists. *)
Example detect_loudest_of_four :
  detected ["plughw:0"; "plughw:1"; "plughw:2"; "plughw:3"] [5; 45; 60; 20]%R
  = Returned (Some "plughw:2").
Proof.
  unfold detected, futures_of. simpl. unfold _RECORD_RMS_MIN.
  destruct (Rlt_dec 5 30); [|lra].
  destruct (Rlt_dec 45 30); [lra|].
  destruct (Rlt_dec 60 30); [lra|].
  destruct (Rgt_dec 60 45); [|lra].
  destruct (Rlt_dec 20 30); [|lra]. done.
Qed.

Example detect_all_below_threshold :
  detected ["plughw:0"; "plughw:1"] [5; 29]%R = Returned None.
Proof.
  unfold detected, futures_of. simpl. unfold _RECORD_RMS_MIN.
  destruct (Rlt_dec 5 30); [|lra].
  destruct (Rlt_dec 29 30); [|lra]. done.
Qed.

Example detect_tie_first_wins :
  detected ["plughw:0"; "plughw:1"] [50; 50]%R = Returned (Some "plughw:0").
Proof.
  unfold detected, futures_of. simpl. unfold _RECORD_RMS_MIN.
  destruct (Rlt_dec 50 30); [lra|].
  destruct (Rgt_dec 50 50); [lra|]. done.
Qed.

(** The submit loop leaves in [futures] what [futures_of] says, for the
    scores the probes return; it writes no file. *)
Lemma submit_probes_run devices futures env w :
  ∃ scores events,
    length scores = length devices
    ∧ submit_probes devices futures env w
      = (Returned (foldl (λ futures entry, dict_set entry.1 entry.2 futures)
                     futures (zip devices (Returned <$> scores))),
         logged w events).
Proof.
  revert futures w. induction devices as [|device devices IH];
    intros futures w.
  { exists [], []. by rewrite logged_nil. }
  simpl. unfold executor_submit. run. rewrite _record_proc_run.
  match goal with
  | |- context [dict_set device (Returned ?rms) futures] =>
      destruct (IH (dict_set device (Returned rms) futures)
                  (logged w [CheckOutput (arecord device)]))
        as (scores & events & Hlen & ->);
      exists (rms :: scores), (CheckOutput (arecord device) :: events)
  end.
  split; [simpl; lia|]. by rewrite logged_logged.
Qed.

Lemma gauge_loop_run fuel percent env w :
  ∃ events, gauge_loop fuel percent env w = (Returned tt, logged w events).
Proof.
  revert percent w. induction fuel as [|fuel IH]; intros percent w.
  { exists []. by rewrite logged_nil. }
  simpl. case_bool_decide; [|exists []; by rewrite logged_nil].
  unfold emit. run.
  destruct (IH (percent + 100 / 20)%Z (logged w [Gauge (percent + 100 / 20)]))
    as [events Hev].
  exists (Gauge (percent + 100 / 20) :: events).
  unfold logged in *. simpl in *. rewrite Hev. by rewrite <-app_assoc.
Qed.

Lemma gauge_run text seconds env w :
  ∃ events,
    gauge text seconds env w
    = (if spawns env (log w ++ [Popen (gauge_argv text) true])
       then Returned tt else Raised OSError,
       logged w events).
Proof.
  unfold gauge, subprocess_Popen, communicate, emit, ask.
  unfold mbind, M_bind, mret, M_ret, raise. cbn [log].
  fold (gauge_argv text).
  destruct (spawns env _); [|by eexists].
  match goal with
  | |- context [gauge_loop 101 0 env ?w1] =>
      destruct (gauge_loop_run 101 0 env w1) as [events ->]
  end.
  eexists (_ :: events ++ [Communicate None]).
  unfold logged. cbn [log settings_file files]. by rewrite <-!app_assoc.
Qed.

(** The autodetect branch stores and saves the device [detected] names for
    the scores its probes returned, and otherwise changes nothing. *)
Lemma detect_stores_detected settings devices env w :
  ∃ scores,
    length scores = length devices
    ∧ ∀ after w',
        detect settings devices env w = (Returned after, w') →
        match detected devices scores with
        | Returned (Some device) =>
            after = Settings.set_microphone_device (Some device) settings
            ∧ settings_file w' = Some (Settings.asdict after)
        | _ => after = settings ∧ settings_file w' = settings_file w
        end
        ∧ files w' = files w.
Proof.
  destruct (submit_probes_run devices [] env w)
    as (scores & events & Hlen & Hsubmit).
  exists scores. split; [done|]. intros after w'.
  unfold detect. run. rewrite Hsubmit. fold (futures_of devices (Returned <$> scores)).
  destruct (gauge_run "Speak loudly into the microphone." _RECORD_SECONDS env
              (logged w events)) as [gauged ->].
  destruct (spawns env _); [|done].
  fold (detected devices scores).
  destruct (detected devices scores) as [[device|]|e]; simpl; [| |done].
  - rewrite msgbox_run. simpl. destruct (spawns env _); [|done].
    by intros [= <- <-].
  - rewrite msgbox_run. simpl. destruct (spawns env _); [|done].
    by intros [= <- <-].
Qed.

(** ** The command runner *)

(** One command: an empty one fails before any process, a process that
    does not start or exits with another code than 0 fails, and only a
    started process is written to. *)
Lemma _run_command_run command sudo_password env w :
  _run_command command sudo_password env w =
    (Returned (command_ok env (log w) command sudo_password),
     logged w (command_events env (log w) command sudo_password)).
Proof.
  unfold _run_command, try_except, subprocess_Popen, communicate, emit, ask,
    command_ok, command_events. run.
  case_bool_decide; simpl; [by rewrite logged_nil|].
  destruct (spawns env _) eqn:E; simpl; [|done].
  rewrite <-!app_assoc. simpl. fold (proc_input command sudo_password).
  destruct (exits env _) as [rc err]. simpl. unfold logged.
  rewrite <-?app_assoc. simpl.
  by repeat case_bool_decide.
Qed.

Lemma proc_input_secret command sudo_password secret :
  proc_input command sudo_password = Some secret
  ↔ command !! 0 = Some "sudo" ∧ sudo_password = Some secret.
Proof.
  unfold proc_input. case_bool_decide as Hsudo; simpl.
  - destruct sudo_password as [password|]; simpl.
    + split; [by intros [= ->]|by intros [_ [= ->]]].
    + split; [done|by intros [_ ?]].
  - split; [done|by intros [? _]].
Qed.

Lemma proc_input_none command sudo_password :
  command !! 0 ≠ Some "sudo" ∨ sudo_password = None →
  proc_input command sudo_password = None.
Proof.
  unfold proc_input. intros [Hsudo| ->].
  - by rewrite bool_decide_eq_false_2.
  - by rewrite andb_false_r.
Qed.

(** C8.  [_run_command] writes to the input channel of the process it
    starts at most once, exactly once when the process starts, and what it
    writes is the secret if and only if the command's first argument is
    ["sudo"] and a secret was supplied; a command with another first
    argument, and any command when no secret was supplied, gets no input
    before its channel is closed. *)
Theorem secret_only_to_sudo command sudo_password env w :
  ∃ events,
    log (_run_command command sudo_password env w).2 = log w ++ events
    ∧ length (inputs events) ≤ 1
    ∧ (command ≠ [] → spawns env (log w ++ [Popen command true]) = true →
       length (inputs events) = 1)
    ∧ ∀ input, input ∈ inputs events →
        (∀ secret, input = Some secret
           ↔ command !! 0 = Some "sudo" ∧ sudo_password = Some secret)
        ∧ (command !! 0 ≠ Some "sudo" ∨ sudo_password = None → input = None).
Proof.
  rewrite _run_command_run. eexists. split; [done|].
  unfold command_events. case_bool_decide as Hempty.
  { simpl. split_and!; [lia|done|]. intros input []%elem_of_nil. }
  destruct (spawns env _) eqn:Hspawn; simpl.
  - split_and!; [lia|done|].
    intros input ->%list_elem_of_singleton. split.
    + apply proc_input_secret.
    + apply proc_input_none.
  - split_and!; [lia|done|]. intros input []%elem_of_nil.
Qed.

Lemma wait_done_run n percent env w :
  wait_done n percent env w =
    (Returned (Nat.iter n step_percent percent),
     logged w (Gauge <$> printed_percents n percent)).
Proof.
  revert percent w. induction n as [|n IH]; intros percent w.
  { simpl. by rewrite logged_nil. }
  rewrite Nat.iter_succ_r. simpl. unfold emit. run.
  fold (step_percent percent). rewrite IH.
  unfold logged. simpl. by rewrite <-app_assoc.
Qed.

(** One round of the loop: the command runs, the gauge ticks, and the
    loop goes on only if the command succeeded. *)
Lemma run_commands_step command commands sudo_password percent env w :
  run_commands (command :: commands) sudo_password percent env w =
    let ok := command_ok env (log w ++ [Submit command]) command sudo_password in
    let started := [Submit command]
      ++ command_events env (log w ++ [Submit command]) command sudo_password in
    let w' := logged w (round_events env (log w) command sudo_password percent) in
    if ok then
      run_commands commands sudo_password
        (Nat.iter (polls env (log w ++ started)) step_percent percent) env w'
    else (Returned false, w').
Proof.
  simpl. unfold emit, executor_submit, ask. run.
  rewrite _run_command_run. simpl. rewrite wait_done_run. simpl.
  unfold round_events, logged. simpl. rewrite <-?app_assoc. simpl.
  destruct (command_ok _ _ _ _); simpl; rewrite <-?app_assoc; done.
Qed.

Lemma submitted_app a b : submitted (a ++ b) = submitted a ++ submitted b.
Proof. apply omap_app. Qed.

Lemma results_app a b : results (a ++ b) = results a ++ results b.
Proof. apply omap_app. Qed.

Lemma spawned_app a b : spawned (a ++ b) = spawned a ++ spawned b.
Proof. apply omap_app. Qed.

Lemma one_at_a_time_quiet busy events rest :
  Forall quiet events →
  one_at_a_time busy (events ++ rest) = one_at_a_time busy rest.
Proof.
  induction 1 as [|e events He _ IH]; [done|].
  by destruct e.
Qed.

Lemma command_events_quiet env before command sudo_password :
  Forall quiet (command_events env before command sudo_password).
Proof.
  unfold command_events. case_bool_decide; [done|].
  destruct (spawns env _); repeat constructor.
Qed.

Lemma gauges_quiet percents : Forall quiet (Gauge <$> percents).
Proof. apply Forall_fmap, Forall_forall. by intros. Qed.

Lemma submitted_quiet events : Forall quiet events → submitted events = [].
Proof. induction 1 as [|e events He _ IH]; [done|]. by destruct e. Qed.

Lemma results_quiet events : Forall quiet events → results events = [].
Proof. induction 1 as [|e events He _ IH]; [done|]. by destruct e. Qed.

Lemma spawned_command_events env before command sudo_password :
  spawned (command_events env before command sudo_password)
  = if bool_decide (command = []) then [] else [command].
Proof.
  unfold command_events. case_bool_decide; [done|].
  by destruct (spawns env _).
Qed.

Lemma spawned_gauges percents : spawned (Gauge <$> percents) = [].
Proof. by induction percents. Qed.

(** One round: one command submitted, one result taken, at most one
    process, nothing else in flight. *)
Lemma round_events_read env before command sudo_password percent :
  let round := round_events env before command sudo_password percent in
  submitted round = [command]
  ∧ results round
    = [command_ok env (before ++ [Submit command]) command sudo_password]
  ∧ spawned round = (if bool_decide (command = []) then [] else [command])
  ∧ ∀ rest, one_at_a_time false (round ++ rest) = one_at_a_time false rest.
Proof.
  unfold round_events.
  pose proof (command_events_quiet env (before ++ [Submit command]) command
                sudo_password) as Hquiet.
  split_and!.
  - rewrite !submitted_app. simpl.
    by rewrite !submitted_quiet by auto using gauges_quiet.
  - rewrite !results_app. simpl.
    by rewrite !results_quiet by auto using gauges_quiet.
  - rewrite !spawned_app. simpl.
    rewrite spawned_command_events, spawned_gauges. by rewrite app_nil_r.
  - intros rest. rewrite <-!app_assoc. simpl.
    rewrite one_at_a_time_quiet by done.
    rewrite one_at_a_time_quiet by apply gauges_quiet. done.
Qed.

(** The loop over the commands: the first [k] succeed and, unless all did,
    the next one fails and is the last one submitted. *)
Lemma run_commands_spec commands sudo_password percent env w :
  ∃ ok events k,
    run_commands commands sudo_password percent env w
    = (Returned ok, logged w events)
    ∧ submitted events = take (if ok : bool then k else S k) commands
    ∧ results events = replicate k true ++ (if ok then [] else [false])
    ∧ (if ok then k = length commands else k < length commands)
    ∧ spawned events = filter (λ command, command ≠ []) (submitted events)
    ∧ one_at_a_time false events = true
    ∧ faithful env (log w) sudo_password commands events.
Proof.
  revert percent w.
  induction commands as [|command commands IH]; intros percent w.
  { exists true, [], 0. rewrite logged_nil. by split_and!. }
  rewrite run_commands_step. cbv zeta.
  destruct (round_events_read env (log w) command sudo_password percent)
    as (Hsub & Hres & Hspawn & Hone).
  assert (∃ later, round_events env (log w) command sudo_password percent
                   = [] ++ Submit command :: later) as [later0 Hfirst].
  { unfold round_events. simpl. by eexists. }
  remember (round_events env (log w) command sudo_password percent) as round
    eqn:Hround.
  assert (spawned round = filter (λ command, command ≠ []) [command])
    as Hspawn'.
  { rewrite Hspawn. rewrite filter_cons, filter_nil.
    case_bool_decide; by case_decide. }
  destruct (command_ok env (log w ++ [Submit command]) command sudo_password)
    eqn:Hok.
  - destruct (IH (Nat.iter (polls env (log w ++ [Submit command]
                    ++ command_events env (log w ++ [Submit command]) command
                         sudo_password)) step_percent percent)
                 (logged w round))
      as (ok & events & k & -> & Hsub' & Hres' & Hk & Hspawn'' & Hone' & Hfaith).
    exists ok, (round ++ events), (S k). rewrite logged_logged.
    split_and!; [done|..].
    + rewrite submitted_app, Hsub, Hsub'. by destruct ok.
    + by rewrite results_app, Hres, Hres'.
    + destruct ok; simpl; lia.
    + rewrite spawned_app, submitted_app, filter_app.
      by rewrite Hspawn', Hspawn'', Hsub.
    + by rewrite Hone.
    + intros [|i] c ok'; simpl.
      * intros [= <-]. rewrite results_app, Hres. simpl. intros [= <-].
        exists [], (later0 ++ events). rewrite Hfirst. simpl.
        split_and!; [done|done|]. by rewrite Hok.
      * intros Hc. rewrite results_app, Hres. simpl. intros Hi.
        destruct (Hfaith i c ok' Hc Hi) as (earlier & later & -> & He & ->).
        exists (round ++ earlier), later. split_and!.
        -- by rewrite <-app_assoc.
        -- by rewrite submitted_app, Hsub, He.
        -- simpl. by rewrite <-!app_assoc.
  - exists false, round, 0. split_and!; [done|..].
    + by rewrite Hsub.
    + by rewrite Hres.
    + simpl. lia.
    + by rewrite Hsub.
    + rewrite <-(app_nil_r round). by rewrite Hone.
    + intros [|i] c ok'; simpl.
      * intros [= <-]. rewrite Hres. simpl. intros [= <-].
        exists [], later0. rewrite Hfirst. simpl.
        split_and!; [done|done|]. by rewrite Hok.
      * intros _. by rewrite Hres.
Qed.




(** Three commands of which the second exits with code 1: the third is
    never handed to the pool, and the run fails. *)
Example second_of_three_fails :
  run_with_gauge "Installing" three_commands None (failing_env ["false"])
    empty_world
  = (Returned false,
     logged empty_world
       [Popen (gauge_argv "Installing") true;
        Submit ["true"]; Popen ["true"] true; Communicate None;
        Gauge 5; Result true;
        Submit ["false"]; Popen ["false"] true; Communicate None;
        Gauge 10; Result false]).
Proof. vm_compute. reflexivity. Qed.

(** ** The handlers *)

(** C6.  With no microphone configured, [generate_services] shows the
    message dialog and returns; it has no settings to return changed, the
    settings file and the text files of the world are as before, and the
    log has gained the dialog and nothing else.  (If whiptail itself cannot
    be started the call raises instead of returning, with the same
    files.) *)
Theorem generate_services_needs_microphone settings env w :
  Settings.microphone_device settings = None →
  let argv := ["whiptail"; "--title"; TITLE; "--msgbox";
               "Please configure microphone"; HEIGHT; WIDTH] in
  generate_services settings env w =
    (if spawns env (log w ++ [Popen argv false])
     then (Returned tt, logged w [Popen argv false; Communicate None])
     else (Raised OSError, logged w [Popen argv false]))
  ∧ settings_file (generate_services settings env w).2 = settings_file w
  ∧ files (generate_services settings env w).2 = files w.
Proof.
  intros Hmic argv. unfold generate_services. rewrite Hmic.
  rewrite msgbox_run. simpl. fold argv.
  by destruct (spawns env _).
Qed.

Lemma generate_services_needs_microphone_witness :
  let argv := ["whiptail"; "--title"; TITLE; "--msgbox";
               "Please configure microphone"; HEIGHT; WIDTH] in
  generate_services Settings.defaults working_env empty_world =
    (if spawns working_env (log empty_world ++ [Popen argv false])
     then (Returned tt, logged empty_world [Popen argv false; Communicate None])
     else (Raised OSError, logged empty_world [Popen argv false]))
  ∧ settings_file
      (generate_services Settings.defaults working_env empty_world).2
    = settings_file empty_world
  ∧ files (generate_services Settings.defaults working_env empty_world).2
    = files empty_world.
Proof.
  apply (generate_services_needs_microphone Settings.defaults working_env
           empty_world).
  reflexivity.
Defined.

(** C9.  When the stored wake word system is not snowboy,
    [install_wake_word] asked for snowboy does nothing: no command is run,
    no dialog shown, nothing saved, and the settings come back as they
    were, so the stored system does not become snowboy and the mapping
    gains no snowboy entry. *)
Theorem install_snowboy_does_nothing settings env w :
  Settings.wake_word_system settings ≠ Some WakeWordSystem.SNOWBOY →
  install_wake_word settings WakeWordSystem.SNOWBOY env w
  = (Returned settings, w).
Proof.
  intros Hstored. unfold install_wake_word.
  rewrite bool_decide_eq_false_2 by done.
  rewrite bool_decide_eq_false_2 by done.
  by rewrite bool_decide_eq_false_2 by done.
Qed.

Lemma install_snowboy_does_nothing_witness :
  install_wake_word Settings.defaults WakeWordSystem.SNOWBOY working_env
    empty_world
  = (Returned Settings.defaults, empty_world).
Proof.
  apply (install_snowboy_does_nothing Settings.defaults working_env
           empty_world).
  discriminate.
Defined.

Lemma choose_wake_word_run settings items key env w :
  items ≠ [] →
  choose_wake_word settings items key env w =
    let selected := Settings.wake_word settings !! key in
    let argv := radiolist_argv "Wake Word:" items selected [] in
    let item_map := (radiolist_tables items selected).1 in
    let asked := [Popen argv false; Communicate None] in
    if spawns env (log w ++ [Popen argv false]) then
      let reply := exits env (log w ++ asked) in
      if bool_decide (reply.1 ≠ 0%Z) then (Returned settings, logged w asked)
      else
        let word := default reply.2 (item_map !! reply.2) in
        let settings' :=
          Settings.set_wake_word (<[key := word]> (Settings.wake_word settings))
            settings in
        (Returned settings',
         {| settings_file := Some (Settings.asdict settings');
            files := files w;
            log := log w ++ asked ++ [Mkdir (_LOCAL_DIR env)] |})
    else (Raised OSError, logged w [Popen argv false]).
Proof.
  intros Hitems. unfold choose_wake_word. run.
  rewrite radiolist_run by done. simpl.
  destruct (spawns env _); [|done].
  case_bool_decide; [done|].
  unfold logged. simpl. by rewrite <-app_assoc.
Qed.

(** C10.  With porcupine1 selected, [select_wake_word] shows the radio
    list of the openWakeWord words, with the word filed under openWakeWord
    preselected, and files a present answer under openWakeWord and saves
    it; and whatever system is selected, the word filed under porcupine1
    after [select_wake_word] returns is the one filed before. *)
Theorem select_wake_word_porcupine1 settings env w :
  let oww := WakeWordSystem.OPENWAKEWORD in
  let selected := Settings.wake_word settings !! oww in
  let argv := radiolist_argv "Wake Word:" openwakeword_words selected [] in
  let item_map := (radiolist_tables openwakeword_words selected).1 in
  let asked := [Popen argv false; Communicate None] in
  let reply := exits env (log w ++ asked) in
  let word := default reply.2 (item_map !! reply.2) in
  let settings' :=
    Settings.set_wake_word (<[oww := word]> (Settings.wake_word settings))
      settings in
  (Settings.wake_word_system settings = Some WakeWordSystem.PORCUPINE1 →
   select_wake_word settings env w =
     if spawns env (log w ++ [Popen argv false]) then
       if bool_decide (reply.1 ≠ 0%Z) then (Returned settings, logged w asked)
       else (Returned settings',
             {| settings_file := Some (Settings.asdict settings');
                files := files w;
                log := log w ++ asked ++ [Mkdir (_LOCAL_DIR env)] |})
     else (Raised OSError, logged w [Popen argv false]))
  ∧ (∀ after w',
       select_wake_word settings env w = (Returned after, w') →
       Settings.wake_word after !! WakeWordSystem.PORCUPINE1
       = Settings.wake_word settings !! WakeWordSystem.PORCUPINE1).
Proof.
  intros oww selected argv item_map asked reply word settings'. split.
  - intros Hsys. unfold select_wake_word. rewrite Hsys.
    rewrite bool_decide_eq_false_2 by done.
    rewrite bool_decide_eq_true_2 by done.
    by rewrite choose_wake_word_run.
  - intros after w'. unfold select_wake_word.
    assert (∀ items key, items ≠ [] → key ≠ WakeWordSystem.PORCUPINE1 →
      choose_wake_word settings items key env w = (Returned after, w') →
      Settings.wake_word after !! WakeWordSystem.PORCUPINE1
      = Settings.wake_word settings !! WakeWordSystem.PORCUPINE1) as Hchoose.
    { intros items key Hitems Hkey. rewrite choose_wake_word_run by done. simpl.
      destruct (spawns env _); [|done].
      case_bool_decide; intros [= <- _]; [done|].
      simpl. by rewrite lookup_insert_ne. }
    do 3 (case_bool_decide; [by apply Hchoose|]).
    by intros [= <- _].
Qed.

(** With porcupine1 selected, the third word of the openWakeWord list is
    filed under openWakeWord. *)
Example porcupine1_files_under_openwakeword :
  (select_wake_word
     (Settings.set_wake_word_system (Some WakeWordSystem.PORCUPINE1)
        Settings.defaults)
     (answering_env "2") empty_world).1
  = Returned
      (Settings.set_wake_word
         (<[WakeWordSystem.OPENWAKEWORD := "alexa"]> ∅)
         (Settings.set_wake_word_system (Some WakeWordSystem.PORCUPINE1)
            Settings.defaults)).
Proof. vm_compute. reflexivity. Qed.

Lemma load_kwargs_none names d kwargs :
  (∀ name, name ∈ names → dict_get d name = Returned None) →
  Settings.load_kwargs names d kwargs = Returned kwargs.
Proof.
  revert kwargs. induction names as [|name names IH]; intros kwargs H; [done|].
  simpl. rewrite (H name) by left. apply IH. intros n Hn. apply H. by right.
Qed.

(** X1.  [Settings.load] returns [Settings()], every field at its default, and
    leaves the world as it was, when there is no settings file, and also
    when the file holds an object in which each of the seven field names is
    missing or [null]. *)
Theorem load_defaults env w :
  match settings_file w with
  | Some d =>
      ∀ name, name ∈ Settings.fields_Settings →
              dict_get d name = Returned None
  | None => True
  end →
  Settings.load env w = (Returned (Some Settings.defaults), w).
Proof.
  unfold Settings.load. destruct (settings_file w) as [d|]; [|done].
  intros H. by rewrite load_kwargs_none.
Qed.

Lemma load_defaults_witness :
  Settings.load working_env (with_settings_file (Some sparse_file) empty_world)
  = (Returned (Some Settings.defaults),
     with_settings_file (Some sparse_file) empty_world).
Proof.
  apply (load_defaults working_env
           (with_settings_file (Some sparse_file) empty_world)).
  simpl. intros name Hname.
  repeat (apply elem_of_cons in Hname as [->|Hname]; [reflexivity|]).
  by apply elem_of_nil in Hname.
Defined.

(** * Further properties *)

(** ** Loading the settings *)

Lemma load_kwargs_agree names d1 d2 kwargs :
  (∀ name, name ∈ names → dict_get d1 name = dict_get d2 name) →
  Settings.load_kwargs names d1 kwargs = Settings.load_kwargs names d2 kwargs.
Proof.
  revert kwargs. induction names as [|name names IH]; intros kwargs H; [done|].
  simpl. rewrite <-(H name) by left.
  destruct (dict_get d1 name) as [[v|]|e]; [| |done];
    apply IH; intros n Hn; apply H; by right.
Qed.

(** X2.  [Settings.load] reads the seven fields of [Settings] and nothing
    else: two documents that give the same answer to [get] for each field
    name (a missing name and a [null] both answer [None]) load to the same
    result, whatever other names they hold. *)
Theorem load_reads_only_its_fields (d1 d2 : json) env w :
  (∀ name, name ∈ Settings.fields_Settings →
     dict_get d1 name = dict_get d2 name) →
  (Settings.load env (with_settings_file (Some d1) w)).1
  = (Settings.load env (with_settings_file (Some d2) w)).1.
Proof.
  intros H. unfold Settings.load, with_settings_file. cbn [settings_file].
  rewrite (load_kwargs_agree _ d1 d2) by done.
  by destruct (Settings.load_kwargs _ d2 []).
Qed.

Lemma load_reads_only_its_fields_witness :
  (Settings.load working_env
     (with_settings_file (Some named_file) empty_world)).1
  = (Settings.load working_env
       (with_settings_file (Some padded_file) empty_world)).1.
Proof.
  apply (load_reads_only_its_fields named_file padded_file working_env
           empty_world).
  intros name Hname.
  repeat (apply elem_of_cons in Hname as [->|Hname]; [reflexivity|]).
  by apply elem_of_nil in Hname.
Defined.

(** X3.  When the settings file holds a JSON value that is not an object (an
    array, a string, a number, a boolean, [null]), [Settings.load] raises
    [AttributeError] at the first [settings_dict.get] and the world is as it
    was. *)
Theorem load_not_an_object env w d :
  settings_file w = Some d →
  (∀ members, d ≠ JObj members) →
  Settings.load env w = (Raised AttributeError, w).
Proof.
  intros Hd H. unfold Settings.load. rewrite Hd.
  destruct d; try done. by destruct (H members).
Qed.

Lemma load_not_an_object_witness :
  Settings.load working_env (with_settings_file (Some (JArr [])) empty_world)
  = (Raised AttributeError, with_settings_file (Some (JArr [])) empty_world).
Proof.
  apply (load_not_an_object working_env
           (with_settings_file (Some (JArr [])) empty_world) (JArr []));
    [reflexivity|discriminate].
Defined.

(** ** The gauges *)



Lemma shown_app a b : shown (a ++ b) = shown a ++ shown b.
Proof. apply omap_app. Qed.

Lemma shown_gauges percents : shown (Gauge <$> percents) = percents.
Proof.
  unfold shown. induction percents as [|p percents IH]; [done|].
  simpl. f_equal. apply IH.
Qed.

Lemma shown_command_events env before command sudo_password :
  shown (command_events env before command sudo_password) = [].
Proof.
  unfold command_events. case_bool_decide; [done|]. by destruct (spawns env _).
Qed.

Lemma step_percent_on_scale percent :
  on_scale percent → on_scale (step_percent percent).
Proof.
  intros [Hrange [k ->]]. unfold step_percent.
  change (100 / 20)%Z with 5%Z.
  case_bool_decide; [split; [lia|by exists 0%Z]|].
  split; [lia|]. exists (k + 1)%Z. lia.
Qed.

Lemma iter_step_percent_on_scale n percent :
  on_scale percent → on_scale (Nat.iter n step_percent percent).
Proof.
  intros H. induction n as [|n IH]; [done|]. simpl.
  by apply step_percent_on_scale.
Qed.

Lemma printed_percents_on_scale n percent :
  on_scale percent → Forall on_scale (printed_percents n percent).
Proof.
  revert percent. induction n as [|n IH]; intros percent H; [done|].
  simpl. constructor; [|apply IH]; by apply step_percent_on_scale.
Qed.

Lemma shown_round_events env before command sudo_password percent :
  shown (round_events env before command sudo_password percent)
  = printed_percents
      (polls env (before ++ [Submit command]
                  ++ command_events env (before ++ [Submit command]) command
                       sudo_password)) percent.
Proof.
  unfold round_events. rewrite !shown_app. simpl.
  rewrite shown_command_events, shown_gauges. simpl. by rewrite app_nil_r.
Qed.

Lemma run_commands_on_scale commands sudo_password percent env w :
  on_scale percent →
  ∃ ok events,
    run_commands commands sudo_password percent env w
    = (Returned ok, logged w events)
    ∧ Forall on_scale (shown events).
Proof.
  revert percent w.
  induction commands as [|command commands IH]; intros percent w Hp.
  { exists true, []. by rewrite logged_nil. }
  rewrite run_commands_step. cbv zeta.
  pose proof (shown_round_events env (log w) command sudo_password percent)
    as Hshown.
  destruct (command_ok _ _ _ _).
  - edestruct IH as (ok & events & -> & Hev).
    { by apply iter_step_percent_on_scale. }
    eexists ok, (_ ++ events). rewrite logged_logged. split; [done|].
    rewrite shown_app, Hshown. apply Forall_app. split; [|done].
    by apply printed_percents_on_scale.
  - eexists false, _. split; [done|]. rewrite Hshown.
    by apply printed_percents_on_scale.
Qed.

(** X5.  Every percentage [run_with_gauge] prints to its dialog is a multiple
    of 5 between 0 and 100: the counter starts again at 0 once it has passed
    100, however long the commands take. *)
Theorem run_with_gauge_stays_on_scale text commands sudo_password env w :
  ∃ events,
    (run_with_gauge text commands sudo_password env w).2 = logged w events
    ∧ Forall on_scale (shown events).
Proof.
  unfold run_with_gauge, subprocess_Popen, emit, ask. run.
  destruct (spawns env _); simpl; [|by eexists [_]].
  match goal with
  | |- context [run_commands _ _ _ env ?w1] =>
      destruct (run_commands_on_scale commands sudo_password 0 env w1)
        as (ok & events & -> & Hev)
  end.
  { split; [lia|by exists 0%Z]. }
  destruct ok.
  - unfold communicate, emit, ask. run.
    eexists (_ :: events ++ [_]). split.
    + unfold logged. simpl. by rewrite <-!app_assoc.
    + simpl. rewrite shown_app. simpl. by rewrite app_nil_r.
  - simpl. eexists (_ :: events). split.
    + unfold logged. simpl. by rewrite <-!app_assoc.
    + done.
Qed.

Lemma inputs_app a b : inputs (a ++ b) = inputs a ++ inputs b.
Proof. apply omap_app. Qed.

Lemma inputs_gauges percents : inputs (Gauge <$> percents) = [].
Proof. by induction percents. Qed.

Lemma round_events_waits env before command sudo_password percent :
  let round := round_events env before command sudo_password percent in
  let ok := command_ok env (before ++ [Submit command]) command sudo_password in
  length (inputs round) ≤ length (spawned round)
  ∧ (ok = true → length (inputs round) = length (spawned round))
  ∧ last round = Some (Result ok).
Proof.
  unfold round_events, command_ok, command_events. simpl.
  rewrite !inputs_app, !spawned_app, inputs_gauges, spawned_gauges.
  rewrite last_cons, !last_app. simpl.
  case_bool_decide; simpl; [split_and!; [lia|done|done]|].
  destruct (spawns env _); simpl; split_and!; done || lia.
Qed.

Lemma run_commands_waits commands sudo_password percent env w :
  ∃ ok events,
    run_commands commands sudo_password percent env w
    = (Returned ok, logged w events)
    ∧ length (inputs events) ≤ length (spawned events)
    ∧ (if ok : bool then length (inputs events) = length (spawned events)
       else last events = Some (Result false)).
Proof.
  revert percent w.
  induction commands as [|command commands IH]; intros percent w.
  { exists true, []. by rewrite logged_nil. }
  rewrite run_commands_step. cbv zeta.
  destruct (round_events_waits env (log w) command sudo_password percent)
    as (Hle & Heq & Hlast).
  destruct (command_ok _ _ _ _).
  - edestruct IH as (ok & events & -> & Hle' & Hok).
    eexists ok, (_ ++ events). rewrite logged_logged. split; [done|].
    rewrite inputs_app, spawned_app, !length_app.
    specialize (Heq eq_refl). split; [lia|].
    destruct ok; [lia|].
    rewrite last_app, Hok. done.
  - eexists false, _. done.
Qed.

(** X6.  [run_with_gauge] waits for its dialog only when it returns [True]:
    then the last thing it does is the [communicate] on the dialog, and
    every process it started has been waited for.  When it returns [False]
    the last thing it did was to take the failed result, and at least one
    process it started (the dialog) has not been waited for. *)
Theorem run_with_gauge_waits_on_success text commands sudo_password env w ok w' :
  run_with_gauge text commands sudo_password env w = (Returned ok, w') →
  ∃ events,
    w' = logged w events
    ∧ if ok
      then last events = Some (Communicate None)
           ∧ length (inputs events) = length (spawned events)
      else last events = Some (Result false)
           ∧ length (inputs events) < length (spawned events).
Proof.
  unfold run_with_gauge, subprocess_Popen, emit, ask. run.
  destruct (spawns env _); simpl; [|done].
  match goal with
  | |- context [run_commands _ _ _ env ?w1] =>
      destruct (run_commands_waits commands sudo_password 0 env w1)
        as (ok' & events & -> & Hle & Hok)
  end.
  destruct ok'.
  - unfold communicate, emit, ask. run. intros [= <- <-].
    eexists (_ :: events ++ [_]). split.
    + unfold logged. simpl. by rewrite <-!app_assoc.
    + rewrite last_cons, last_app. simpl.
      rewrite inputs_app, spawned_app, !length_app. simpl. split; [done|lia].
  - simpl. intros [= <- <-]. eexists (_ :: events). split.
    + unfold logged. simpl. by rewrite <-!app_assoc.
    + rewrite last_cons, Hok. simpl. split; [done|lia].
Qed.

Lemma run_with_gauge_waits_on_success_witness :
  ∃ events,
    (run_with_gauge "Installing" three_commands None (failing_env ["false"])
       empty_world).2
    = logged empty_world events
    ∧ last events = Some (Result false)
    ∧ length (inputs events) < length (spawned events).
Proof.
  apply (run_with_gauge_waits_on_success "Installing" three_commands None
           (failing_env ["false"]) empty_world false).
  vm_compute. reflexivity.
Defined.

(** ** Computations that write no file *)

Lemma same_store_refl w : same_store w w.
Proof. done. Qed.

Lemma same_store_trans w1 w2 w3 :
  same_store w1 w2 → same_store w2 w3 → same_store w1 w3.
Proof. intros [] []. split; congruence. Qed.

Lemma returning_ret {A} (a : A) env w (Q : A → World → Prop) :
  Q a w → returning (mret a) env w Q.
Proof. intros HQ a' w' [= <- <-]. done. Qed.

Lemma returning_bind {A B} (m : M A) (k : A → M B) env w
    (Q : B → World → Prop) :
  returning m env w (λ a w1, returning (k a) env w1 Q) →
  returning (m ≫= k) env w Q.
Proof.
  intros Hm b w'. unfold mbind, M_bind.
  destruct (m env w) as [[a|e] w1] eqn:E; [|done].
  by apply Hm.
Qed.

Lemma returning_still {A B} (m : M A) (k : A → M B) env w
    (Q : B → World → Prop) :
  still m →
  (∀ a w1, same_store w w1 → returning (k a) env w1 Q) →
  returning (m ≫= k) env w Q.
Proof.
  intros Hm Hk. apply returning_bind. intros a w1 E.
  apply Hk. by eapply Hm.
Qed.

Lemma still_ret {A} (a : A) : still (mret a).
Proof. by intros env w r w' [= <- <-]. Qed.

Lemma still_raise {A} e : still (raise e : M A).
Proof. by intros env w r w' [= <- <-]. Qed.

Lemma still_bind {A B} (m : M A) (k : A → M B) :
  still m → (∀ a, still (k a)) → still (m ≫= k).
Proof.
  intros Hm Hk env w r w'. unfold mbind, M_bind.
  destruct (m env w) as [[a|e] w1] eqn:E.
  - intros Hk'. eapply same_store_trans; [by eapply Hm|by eapply Hk].
  - intros [= <- <-]. by eapply Hm.
Qed.

Lemma still_emit e : still (emit e).
Proof. by intros env w r w' [= <- <-]. Qed.

Lemma still_ask {A} (answer : Env → list event → A) : still (ask answer).
Proof. by intros env w r w' [= <- <-]. Qed.

Lemma still_assert cond : still (assert cond).
Proof. destruct cond; [apply still_ret|apply still_raise]. Qed.

Lemma still_lift {A} (r : result A) : still (lift r).
Proof. destruct r; [apply still_ret|apply still_raise]. Qed.

Lemma still_try_except {A} (body handler : M A) :
  still body → still handler → still (try_except body handler).
Proof.
  intros Hb Hh env w r w'. unfold try_except.
  destruct (body env w) as [[a|e] w1] eqn:E.
  - intros [= <- <-]. by eapply Hb.
  - intros Hh'. eapply same_store_trans; [by eapply Hb|by eapply Hh].
Qed.

Create HintDb still discriminated.

#[local] Hint Resolve still_ret still_raise still_emit still_ask still_assert
  still_lift : still.

Ltac still :=
  repeat first
    [ progress (intros)
    | solve [eauto with still]
    | progress (cbv zeta)
    | apply still_bind
    | apply still_try_except
    | match goal with
      | |- still (if ?b then _ else _) => destruct b
      | |- still (match ?x with _ => _ end) => destruct x
      | |- still (let '(_, _) := ?x in _) => destruct x
      end ].

Lemma still_subprocess_Popen argv stdin_pipe :
  still (subprocess_Popen argv stdin_pipe).
Proof. unfold subprocess_Popen. still. Qed.

Lemma still_communicate input : still (communicate input).
Proof. unfold communicate. still. Qed.

Lemma still_check_output argv : still (check_output argv).
Proof. unfold check_output. still. Qed.

Lemma still_exists path : still (exists_ path).
Proof. unfold exists_. still. Qed.

#[local] Hint Resolve still_subprocess_Popen still_communicate
  still_check_output still_exists : still.

Lemma still_whiptail args : still (whiptail args).
Proof. unfold whiptail. still. Qed.

#[local] Hint Resolve still_whiptail : still.

Lemma still_menu text items args : still (menu text items args).
Proof. unfold menu. still. Qed.

Lemma still_radiolist text items selected_item args :
  still (radiolist text items selected_item args).
Proof. unfold radiolist. still. Qed.

Lemma still_checklist text items selected_items args :
  still (checklist text items selected_items args).
Proof. unfold checklist. still. Qed.

Lemma still_msgbox text : still (msgbox text).
Proof. unfold msgbox. still. Qed.

Lemma still_inputbox text init : still (inputbox text init).
Proof. unfold inputbox. still. Qed.

Lemma still_paswordbox text : still (paswordbox text).
Proof. unfold paswordbox. still. Qed.

Lemma still_yesno text : still (yesno text).
Proof. unfold yesno. still. Qed.

#[local] Hint Resolve still_menu still_radiolist still_checklist still_msgbox
  still_inputbox still_paswordbox still_yesno : still.

Lemma still_gauge text seconds : still (gauge text seconds).
Proof.
  intros env w r w' E. destruct (gauge_run text seconds env w) as [events E'].
  rewrite E' in E. by injection E as <- <-.
Qed.

Lemma still_run_with_gauge text commands sudo_password :
  still (run_with_gauge text commands sudo_password).
Proof.
  unfold run_with_gauge. apply still_bind; [eauto with still|intros _].
  apply still_bind; [|still].
  intros env w r w' E.
  destruct (run_commands_spec commands sudo_password 0 env w)
    as (ok & events & k & E' & _).
  rewrite E' in E. by injection E as <- <-.
Qed.

Lemma still_pip_install args : still (pip_install args).
Proof. unfold pip_install. still. Qed.

Lemma still_get_microphone_devices : still get_microphone_devices.
Proof. unfold get_microphone_devices. still. Qed.

Lemma still_get_sound_devices : still get_sound_devices.
Proof. unfold get_sound_devices. still. Qed.

#[local] Hint Resolve still_gauge still_run_with_gauge still_pip_install
  still_get_microphone_devices still_get_sound_devices : still.

Lemma still_main_menu settings : still (main_menu settings).
Proof. unfold main_menu. still. Qed.

Lemma still_microphone_menu : still microphone_menu.
Proof. unfold microphone_menu. still. Qed.

Lemma still_sound_menu : still sound_menu.
Proof. unfold sound_menu. still. Qed.

Lemma still_wake_word_menu settings : still (wake_word_menu settings).
Proof. unfold wake_word_menu. still. Qed.

#[local] Hint Resolve still_main_menu still_microphone_menu still_sound_menu
  still_wake_word_menu : still.

Lemma still_install_services settings : still (install_services settings).
Proof. unfold install_services. still. Qed.

Lemma still_rmtree path : still (rmtree path).
Proof. apply still_emit. Qed.

#[local] Hint Resolve still_rmtree still_install_services : still.

(** ** Keeping the settings file in step *)

#[local] Instance microphone_lens : Lens microphone_of.
Proof. split; [by intros []|by intros [] [] []]. Qed.

#[local] Instance sound_lens : Lens sound_of.
Proof. split; [by intros []|by intros [] [] []]. Qed.

#[local] Instance wake_word_lens : Lens wake_word_of.
Proof. split; [by intros []|by intros [] [] []]. Qed.

#[local] Instance name_lens : Lens name_of.
Proof. split; [by intros []|by intros [] [] []]. Qed.

#[local] Instance type_lens : Lens type_of.
Proof. split; [by intros []|by intros [] [] []]. Qed.

#[local] Instance any_lens : Lens (λ s' _, s').
Proof. by split. Qed.

Lemma in_step_refl settings w : in_step settings w settings w.
Proof. by left. Qed.

Lemma in_step_trans s1 w1 s2 w2 s3 w3 :
  in_step s1 w1 s2 w2 → in_step s2 w2 s3 w3 → in_step s1 w1 s3 w3.
Proof.
  intros H12 [[-> E]|]; [|by right].
  destruct H12 as [[-> E']|E']; [left; split; congruence|right; congruence].
Qed.

Lemma touches_same fields `{!Lens fields} settings w w' :
  same_store w w' → touches fields settings w settings w'.
Proof. intros []. split_and!; [by left|done|by rewrite lens_same]. Qed.

Lemma touches_trans fields `{!Lens fields} s1 w1 s2 w2 s3 w3 :
  touches fields s1 w1 s2 w2 → touches fields s2 w2 s3 w3 →
  touches fields s1 w1 s3 w3.
Proof.
  intros (H12 & F12 & E12) (H23 & F23 & E23). split_and!.
  - by eapply in_step_trans.
  - congruence.
  - rewrite E23 at 1. rewrite E12. by rewrite lens_twice.
Qed.

Lemma touches_store_l fields `{!Lens fields} s1 w1 w1' s2 w2 :
  same_store w1 w1' → touches fields s1 w1' s2 w2 → touches fields s1 w1 s2 w2.
Proof.
  intros H1 H2. eapply touches_trans; [done|by apply touches_same|done].
Qed.

Lemma returning_save_bind {B} settings (k : unit → M B) env w
    (Q : B → World → Prop) :
  (∀ w1, settings_file w1 = Some (Settings.asdict settings) →
         files w1 = files w → returning (k tt) env w1 Q) →
  returning (Settings.save settings ≫= k) env w Q.
Proof.
  intros Hk. apply returning_bind. intros [] w1. rewrite save_run.
  intros [= <-]. by apply Hk.
Qed.

Lemma returning_weaken {A} (m : M A) env w (Q Q' : A → World → Prop) :
  returning m env w Q → (∀ a w', Q a w' → Q' a w') → returning m env w Q'.
Proof. intros Hm HQ a w' E. by apply HQ, Hm. Qed.

Lemma returning_call {A B} (m : M A) (k : A → M B) env w
    (Q : A → World → Prop) (Q' : B → World → Prop) :
  returning m env w Q →
  (∀ a w1, Q a w1 → returning (k a) env w1 Q') →
  returning (m ≫= k) env w Q'.
Proof.
  intros Hm Hk. apply returning_bind. intros a w1 E. by apply Hk, Hm.
Qed.

Tactic Notation "step" "as" simple_intropattern(a) ident(w1) ident(H) :=
  apply returning_still; [solve [still]|intros a w1 H].

Tactic Notation "save" "as" ident(w1) ident(H1) ident(H2) :=
  apply returning_save_bind; intros w1 H1 H2.

Tactic Notation "call" constr(lem) "as" simple_intropattern(a) ident(w1)
    simple_intropattern(H) :=
  eapply returning_call; [apply lem|intros a w1 H].

Ltac finish := apply returning_ret.

Ltac same := eauto 10 using same_store_trans, same_store_refl.

Ltac stores :=
  repeat match goal with H : same_store _ _ |- _ => destruct H end.

Ltac unchanged :=
  stores; split_and!;
  [left; split; [done|congruence]|congruence|by rewrite lens_same].

Ltac stored := stores; split_and!; [right; congruence|congruence|done].

(** ** What each handler touches *)

Lemma set_satellite_name_touches settings env w :
  returning (set_satellite_name settings) env w (touches name_of settings w).
Proof.
  unfold set_satellite_name. step as [name|] w1 S1.
  - case_bool_decide; simpl.
    + finish. unchanged.
    + save as w2 S2 F2. finish. stored.
  - finish. unchanged.
Qed.

Lemma set_satellite_type_touches settings env w :
  returning (set_satellite_type settings) env w (touches type_of settings w).
Proof.
  unfold set_satellite_type. step as satellite_type w1 S1.
  apply returning_bind.
  assert (∀ w2, same_store w w2 →
    returning
      (if true then
         match satellite_type with
         | Some satellite_type =>
             let settings := Settings.set_satellite_type satellite_type settings in
             Settings.save settings;; mret settings
         | None => mret settings
         end
       else mret settings) env w2 (touches type_of settings w)) as Hrest.
  { intros w2 H2. destruct satellite_type as [t|]; simpl.
    - save as w3 S3 F3. finish. stored.
    - finish. unchanged. }
  case_bool_decide.
  - step as _PROGRAM_DIR w2 S2. step as command w3 S3. step as result w4 S4.
    destruct result; simpl.
    + finish. apply Hrest. same.
    + step as [] w5 S5. finish. finish. unchanged.
  - finish. by apply Hrest.
Qed.

Lemma detect_touches settings devices env w :
  returning (detect settings devices) env w (touches microphone_of settings w).
Proof.
  destruct (detect_stores_detected settings devices env w)
    as (scores & _ & H).
  intros after w' E. apply H in E as [E F].
  destruct (detected devices scores) as [[device|]|e].
  - destruct E as [-> E]. split_and!; [by right|done|done].
  - destruct E as [-> E]. split_and!; [by left|done|by destruct settings].
  - destruct E as [-> E]. split_and!; [by left|done|by destruct settings].
Qed.

Lemma install_engine_touches settings wake_word_system name repo key word env w :
  returning (install_engine settings wake_word_system name repo key word) env w
    (touches wake_word_of settings w).
Proof.
  unfold install_engine. step as engine_dir w1 S1. step as there w2 S2.
  step as installed w3 S3. destruct installed.
  - save as w4 S4 F4. finish. stored.
  - finish. unchanged.
Qed.

Lemma install_wake_word_touches settings wake_word_system env w :
  returning (install_wake_word settings wake_word_system) env w
    (touches wake_word_of settings w).
Proof.
  unfold install_wake_word.
  repeat case_bool_decide; try apply install_engine_touches.
  finish. unchanged.
Qed.

Lemma choose_wake_word_touches settings items key env w :
  returning (choose_wake_word settings items key) env w
    (touches wake_word_of settings w).
Proof.
  unfold choose_wake_word. step as [word|] w1 S1.
  - save as w2 S2 F2. finish. stored.
  - finish. unchanged.
Qed.

Lemma select_wake_word_touches settings env w :
  returning (select_wake_word settings) env w
    (touches wake_word_of settings w).
Proof.
  unfold select_wake_word.
  repeat case_bool_decide; try apply choose_wake_word_touches.
  finish. unchanged.
Qed.

Lemma while_true_returning (P : Settings → World → Prop) round env :
  (∀ settings w, P settings w →
     returning (round settings) env w (after_round P)) →
  ∀ fuel settings w, P settings w →
    returning (while_true fuel round settings) env w (after_call P).
Proof.
  intros Hround. induction fuel as [|fuel IH]; intros settings w HP.
  { by finish. }
  simpl. call (Hround settings w HP) as [settings'|o] w1 S1.
  - by apply IH.
  - finish. by destruct o.
Qed.

Lemma loop_touches fields `{!Lens fields} round env :
  (∀ settings w,
     returning (round settings) env w (after_round (touches fields settings w))) →
  ∀ fuel settings w,
    returning (while_true fuel round settings) env w
      (after_call (touches fields settings w)).
Proof.
  intros Hround fuel settings w.
  apply (while_true_returning (touches fields settings w)).
  - intros s1 w1 H1. eapply returning_weaken; [apply Hround|].
    intros [s2|[s2|code|]] w2; simpl; eauto using touches_trans.
  - apply touches_same; [done|apply same_store_refl].
Qed.

Lemma configure_sound_round_touches settings env w :
  returning (configure_sound_round settings) env w
    (after_round (touches sound_of settings w)).
Proof.
  unfold configure_sound_round. step as choice w1 S1.
  repeat case_bool_decide.
  - finish. unchanged.
  - step as devices w2 S2. step as sound_device w3 S3.
    destruct (truthy sound_device).
    + save as w4 S4 F4. finish. stored.
    + finish. unchanged.
  - step as sound_device w2 S2.
    destruct (truthy sound_device).
    + save as w3 S3 F3. finish. stored.
    + finish. unchanged.
  - save as w2 S2 F2. step as [] w3 S3. finish. stored.
  - step as [feedback_sounds|] w2 S2.
    + save as w3 S3 F3. finish. stored.
    + finish. unchanged.
  - finish. unchanged.
Qed.

Lemma configure_microphone_round_touches settings env w :
  returning (configure_microphone_round settings) env w
    (after_round (touches microphone_of settings w)).
Proof.
  unfold configure_microphone_round. step as choice w1 S1.
  repeat case_bool_decide.
  - step as devices w2 S2.
    call detect_touches as settings' w3 S3.
    finish. eapply touches_store_l; [apply _| |done]; same.
  - step as devices w2 S2. step as microphone_device w3 S3.
    destruct (truthy microphone_device).
    + save as w4 S4 F4. finish. stored.
    + finish. unchanged.
  - step as microphone_device w2 S2.
    destruct (truthy microphone_device).
    + save as w3 S3 F3. finish. stored.
    + finish. unchanged.
  - step as go w2 S2. destruct go.
    + step as password w3 S3. step as _PROGRAM_DIR w4 S4.
      step as ok w5 S5. step as [] w6 S6. by finish.
    + finish. unchanged.
  - finish. unchanged.
Qed.

Lemma configure_wake_word_round_touches settings env w :
  returning (configure_wake_word_round settings) env w
    (after_round (touches wake_word_of settings w)).
Proof.
  unfold configure_wake_word_round. step as choice w1 S1.
  repeat case_bool_decide.
  - step as [wake_word_system|] w2 S2.
    + call install_wake_word_touches as settings' w3 S3.
      finish. eapply touches_store_l; [apply _| |done]; same.
    + finish. unchanged.
  - call select_wake_word_touches as settings' w2 S2.
    finish. eapply touches_store_l; [apply _| |done]; same.
  - finish. unchanged.
Qed.

(** ** Installing and choosing a wake word *)

Lemma install_wake_word_engine settings wake_word_system :
  wake_word_system ∈ [WakeWordSystem.OPENWAKEWORD; WakeWordSystem.PORCUPINE1] →
  install_wake_word settings wake_word_system
  = install_engine settings wake_word_system
      (if bool_decide (wake_word_system = WakeWordSystem.OPENWAKEWORD)
       then "openWakeWord" else "porcupine1")
      (engine_repo wake_word_system) wake_word_system
      (first_word wake_word_system).
Proof.
  by intros [->|[->|[]%elem_of_nil]%elem_of_cons]%elem_of_cons.
Qed.

(** X7.  For openWakeWord and porcupine1, when the directory of the engine
    exists, [install_wake_word] starts no process and shows no dialog: it
    asks for the directory, stores the system, files the engine's first
    wake word unless a word is filed for it already, and saves. *)
Theorem install_wake_word_engine_present settings wake_word_system env w :
  wake_word_system ∈ [WakeWordSystem.OPENWAKEWORD; WakeWordSystem.PORCUPINE1] →
  present env (log w ++ [Exists (engine_dir env wake_word_system)]) = true →
  install_wake_word settings wake_word_system env w
  = (Returned (with_engine wake_word_system settings),
     {| settings_file :=
          Some (Settings.asdict (with_engine wake_word_system settings));
        files := files w;
        log := log w ++ [Exists (engine_dir env wake_word_system);
                         Mkdir (_LOCAL_DIR env)] |}).
Proof.
  intros Hsystem Hthere. rewrite install_wake_word_engine by done.
  unfold install_engine, exists_, emit, ask. run.
  fold (engine_dir env wake_word_system). rewrite Hthere. simpl.
  rewrite <-app_assoc. done.
Qed.

Lemma install_wake_word_engine_present_witness :
  let env := scripted_env [] 0 (Raised CalledProcessError) true in
  install_wake_word stale_settings WakeWordSystem.PORCUPINE1 env empty_world
  = (Returned (with_engine WakeWordSystem.PORCUPINE1 stale_settings),
     {| settings_file :=
          Some (Settings.asdict
                  (with_engine WakeWordSystem.PORCUPINE1 stale_settings));
        files := files empty_world;
        log := log empty_world
               ++ [Exists (engine_dir env WakeWordSystem.PORCUPINE1);
                   Mkdir (_LOCAL_DIR env)] |}).
Proof.
  apply (install_wake_word_engine_present stale_settings
           WakeWordSystem.PORCUPINE1
           (scripted_env [] 0 (Raised CalledProcessError) true) empty_world).
  - apply list_elem_of_further, list_elem_of_here.
  - reflexivity.
Defined.

(** X8.  For openWakeWord and porcupine1, whenever [install_wake_word]
    returns, one of two things has happened: the system is stored with its
    wake word and the settings file holds the new settings, written last;
    or the settings and the settings file are as they were, the directory of
    the engine was missing, and the last thing done was to remove it
    again. *)
Theorem install_wake_word_all_or_nothing settings wake_word_system env w
    settings' w' :
  wake_word_system ∈ [WakeWordSystem.OPENWAKEWORD; WakeWordSystem.PORCUPINE1] →
  install_wake_word settings wake_word_system env w = (Returned settings', w') →
  (settings' = with_engine wake_word_system settings
   ∧ settings_file w' = Some (Settings.asdict settings')
   ∧ last (log w') = Some (Mkdir (_LOCAL_DIR env)))
  ∨ (settings' = settings
     ∧ settings_file w' = settings_file w
     ∧ present env (log w ++ [Exists (engine_dir env wake_word_system)]) = false
     ∧ last (log w') = Some (Rmtree (engine_dir env wake_word_system))).
Proof.
  intros Hsystem. rewrite install_wake_word_engine by done.
  unfold install_engine, exists_, emit, ask. run.
  fold (engine_dir env wake_word_system).
  destruct (present env _) eqn:Hthere; simpl.
  { intros [= <- <-]. left. simpl. by rewrite last_snoc. }
  match goal with
  | |- context [run_with_gauge ?text ?commands None env ?w1] =>
      destruct (run_with_gauge text commands None env w1) as [[ok|e] w2] eqn:E;
      [apply still_run_with_gauge in E as [E _]|done]
  end.
  simpl in E. destruct ok; simpl.
  - rewrite msgbox_run. cbv zeta. destruct (spawns env _); [|done]. simpl.
    intros [= <- <-]. left. simpl. by rewrite last_snoc.
  - rewrite msgbox_run. cbv zeta. destruct (spawns env _); [|done]. simpl.
    unfold try_except, rmtree, emit. simpl.
    intros [= <- <-]. right. simpl. by rewrite last_snoc.
Qed.

(** The clone fails: the settings stay as they were and the directory is
    removed. *)
Lemma install_wake_word_all_or_nothing_witness :
  let env := scripted_env [(0%Z, "")] 1 (Raised CalledProcessError) false in
  let w' := (install_wake_word Settings.defaults WakeWordSystem.OPENWAKEWORD
               env empty_world).2 in
  (Settings.defaults = with_engine WakeWordSystem.OPENWAKEWORD Settings.defaults
   ∧ settings_file w' = Some (Settings.asdict Settings.defaults)
   ∧ last (log w') = Some (Mkdir (_LOCAL_DIR env)))
  ∨ (Settings.defaults = Settings.defaults
     ∧ settings_file w' = settings_file empty_world
     ∧ present env (log empty_world
                    ++ [Exists (engine_dir env WakeWordSystem.OPENWAKEWORD)])
       = false
     ∧ last (log w') = Some (Rmtree (engine_dir env WakeWordSystem.OPENWAKEWORD))).
Proof.
  apply (install_wake_word_all_or_nothing Settings.defaults
           WakeWordSystem.OPENWAKEWORD
           (scripted_env [(0%Z, "")] 1 (Raised CalledProcessError) false)
           empty_world).
  - apply list_elem_of_here.
  - vm_compute. reflexivity.
Defined.

(** X9.  Whatever system is stored, [select_wake_word] changes no field but
    the wake-word mapping, and in the mapping no word but that of
    openWakeWord or snowboy: the word filed under porcupine1, like that of
    any other key, is never changed.  The settings file keeps step: it holds
    the settings returned, unless nothing changed. *)
Theorem select_wake_word_changes_one_word settings env w settings' w' :
  select_wake_word settings env w = (Returned settings', w') →
  settings' = Settings.set_wake_word (Settings.wake_word settings') settings
  ∧ (∀ engine,
       engine ≠ WakeWordSystem.OPENWAKEWORD → engine ≠ WakeWordSystem.SNOWBOY →
       Settings.wake_word settings' !! engine
       = Settings.wake_word settings !! engine)
  ∧ in_step settings w settings' w'.
Proof.
  assert (∀ items key,
    key = WakeWordSystem.OPENWAKEWORD ∨ key = WakeWordSystem.SNOWBOY →
    returning (choose_wake_word settings items key) env w
      (λ settings' w',
         settings' = Settings.set_wake_word (Settings.wake_word settings') settings
         ∧ (∀ engine,
              engine ≠ WakeWordSystem.OPENWAKEWORD →
              engine ≠ WakeWordSystem.SNOWBOY →
              Settings.wake_word settings' !! engine
              = Settings.wake_word settings !! engine)
         ∧ in_step settings w settings' w')) as Hchoose.
  { intros items key Hkey. unfold choose_wake_word.
    step as [word|] w1 S1.
    - save as w2 S2 F2. finish. split_and!; [done| |by right].
      intros engine H1 H2. simpl.
      rewrite lookup_insert_ne; [done|]. by destruct Hkey as [->| ->].
    - finish. destruct S1. split_and!; [by destruct settings|done|by left]. }
  unfold select_wake_word.
  repeat case_bool_decide; try (apply Hchoose; auto).
  intros [= <- <-]. split_and!; [by destruct settings|done|by left].
Qed.

Lemma select_wake_word_changes_one_word_witness :
  let run := select_wake_word stale_settings (answering_env "1") empty_world in
  let settings' :=
    Settings.set_wake_word
      (<[WakeWordSystem.OPENWAKEWORD := "hey_jarvis"]>
         (Settings.wake_word stale_settings)) stale_settings in
  settings' = Settings.set_wake_word (Settings.wake_word settings') stale_settings
  ∧ (∀ engine,
       engine ≠ WakeWordSystem.OPENWAKEWORD → engine ≠ WakeWordSystem.SNOWBOY →
       Settings.wake_word settings' !! engine
       = Settings.wake_word stale_settings !! engine)
  ∧ in_step stale_settings empty_world settings' run.2.
Proof.
  apply (select_wake_word_changes_one_word stale_settings (answering_env "1")
           empty_world).
  vm_compute. reflexivity.
Defined.

(** ** Name and type of the satellite *)




Lemma run_with_gauge_returns text commands sudo_password env w ok w' :
  run_with_gauge text commands sudo_password env w = (Returned ok, w') →
  ∃ events k,
    w' = logged w events
    ∧ submitted events = take (if ok : bool then k else S k) commands
    ∧ results events = replicate k true ++ (if ok then [] else [false])
    ∧ (if ok then k = length commands else k < length commands).
Proof.
  unfold run_with_gauge, subprocess_Popen, emit, ask. run.
  destruct (spawns env _); simpl; [|done].
  match goal with
  | |- context [run_commands _ _ _ env ?w1] =>
      destruct (run_commands_spec commands sudo_password 0 env w1)
        as (ok' & events & k & -> & Hsub & Hres & Hk & _)
  end.
  destruct ok'.
  - unfold communicate, emit, ask. run. intros [= <- <-].
    exists (Popen (gauge_argv text) true :: events ++ [Communicate None]), k.
    split_and!; [|simpl..|done].
    + unfold logged. simpl. by rewrite <-!app_assoc.
    + by rewrite submitted_app, app_nil_r.
    + by rewrite results_app, app_nil_r.
  - simpl. intros [= <- <-].
    exists (Popen (gauge_argv text) true :: events), k.
    split_and!; [|done..].
    unfold logged. simpl. by rewrite <-!app_assoc.
Qed.

(** X11.  Whenever [set_satellite_type] returns, it has changed no field but
    the type and kept the settings file in step; when the installation of
    the requirements failed, the settings are as they were; and the type
    goes from another value to [vad] only after the one command of the
    installation has succeeded. *)
Theorem set_satellite_type_needs_vad settings env w settings' w' :
  set_satellite_type settings env w = (Returned settings', w') →
  ∃ events,
    log w' = log w ++ events
    ∧ touches type_of settings w settings' w'
    ∧ (false ∈ results events → settings' = settings)
    ∧ (Settings.satellite_type settings' = SatelliteType.VAD →
       Settings.satellite_type settings ≠ SatelliteType.VAD →
       results events = [true]).
Proof.
  intros Hrun. pose proof (set_satellite_type_touches settings env w _ _ Hrun)
    as Htouches.
  revert Htouches Hrun. generalize (touches type_of settings w). intros T HT.
  unfold set_satellite_type. unfold mbind, M_bind, mret, M_ret.
  fold satellite_types. rewrite radiolist_run by done. cbv zeta.
  destruct (spawns env _); [|done].
  destruct (exits env _) as [code reply]. cbn [fst snd].
  destruct (bool_decide (code ≠ 0%Z)).
  { rewrite bool_decide_eq_false_2 by done. intros [= <- <-].
    eexists. split; [reflexivity|]. split; [done|]. split; [done|].
    intros H1 H2. by destruct H2. }
  match goal with
  | |- context [default reply ?found] => generalize (default reply found)
  end.
  intros satellite_type. case_bool_decide as Hvad.
  - unfold pip_install, ask. unfold mbind, M_bind, mret, M_ret.
    match goal with
    | |- context [run_with_gauge ?text ?commands None env ?w1] =>
        destruct (run_with_gauge text commands None env w1)
          as [[ok|e] w2] eqn:E;
        [apply run_with_gauge_returns in E
           as (events & k & -> & _ & Hres & Hk)|done]
    end.
    destruct ok; cbn [negb].
    + rewrite save_run. intros [= <- <-].
      eexists.
      split; [cbn [log logged]; rewrite <-!(app_assoc (log w)); reflexivity|].
      split; [done|]. rewrite !results_app, Hres. cbn [length] in Hk.
      subst k. split; [|done]. cbn. by intros [=]%list_elem_of_singleton.
    + rewrite msgbox_run. cbv zeta. destruct (spawns env _); [|done].
      intros [= <- <-].
      eexists.
      split; [cbn [log logged]; rewrite <-!(app_assoc (log w)); reflexivity|].
      split; [done|]. split; [done|]. intros H1 H2. by destruct H2.
  - rewrite save_run. intros [= <- <-].
    eexists.
    split; [cbn [log logged]; rewrite <-!(app_assoc (log w)); reflexivity|]. split; [done|]. split.
    + cbn. by intros []%elem_of_nil.
    + cbn [Settings.satellite_type Settings.set_satellite_type].
      intros ->. by destruct Hvad.
Qed.

(** Voice activity detection is chosen and its requirements fail to
    install. *)
Lemma set_satellite_type_needs_vad_witness :
  let env := scripted_env [(0%Z, "1"); (0%Z, "")] 1
               (Raised CalledProcessError) true in
  let w' := (set_satellite_type Settings.defaults env empty_world).2 in
  ∃ events,
    log w' = log empty_world ++ events
    ∧ touches type_of Settings.defaults empty_world Settings.defaults w'
    ∧ (false ∈ results events → Settings.defaults = Settings.defaults)
    ∧ (Settings.satellite_type Settings.defaults = SatelliteType.VAD →
       Settings.satellite_type Settings.defaults ≠ SatelliteType.VAD →
       results events = [true]).
Proof.
  apply (set_satellite_type_needs_vad Settings.defaults
           (scripted_env [(0%Z, "1"); (0%Z, "")] 1
              (Raised CalledProcessError) true)
           empty_world).
  vm_compute. reflexivity.
Defined.

(** ** [shlex.split] undoes [shlex.join] *)

Lemma safe_plain c : shlex.safe c = true → plain c = true.
Proof.
  destruct c as [[] [] [] [] [] [] [] []]; vm_compute; congruence.
Qed.

Lemma all_safe_plain s : shlex.all_safe s = true → all_plain s = true.
Proof.
  induction s as [|c s IH]; [done|]. simpl.
  intros [Hc Hs]%andb_prop. by rewrite safe_plain, IH.
Qed.

(** Inside single quotes every character is taken as it is; a single
    quote of the word comes back out of its five characters. *)
Lemma read_quoted_quote rest token quoted escapedstate :
  shlex.read
    (String "'" (String dquote (String "'" (String dquote (String "'" rest)))))
    (shlex.Quote "'") token quoted escapedstate
  = shlex.read rest (shlex.Quote "'") (token +:+ "'") true escapedstate.
Proof. reflexivity. Qed.

Lemma read_quoted_other c rest token quoted escapedstate :
  c ≠ "'"%char →
  shlex.read (String c rest) (shlex.Quote "'") token quoted escapedstate
  = shlex.read rest (shlex.Quote "'") (token +:+ String c "") true
      escapedstate.
Proof.
  intros Hc. simpl. rewrite bool_decide_eq_false_2 by done.
  change (shlex.escapedquotes "'") with false. by rewrite andb_false_r.
Qed.

Lemma read_single_quoted s rest token quoted escapedstate :
  shlex.read (shlex.escape_single_quotes s +:+ String "'" rest)
    (shlex.Quote "'") token quoted escapedstate
  = shlex.read rest shlex.Word (token +:+ s) true escapedstate.
Proof.
  revert token quoted. induction s as [|c s IH]; intros token quoted.
  { simpl. by rewrite string_app_nil_r. }
  simpl. case_bool_decide as Hc.
  - subst c. rewrite !string_app_cons, read_quoted_quote, IH.
    by rewrite string_app_assoc.
  - rewrite string_app_cons, read_quoted_other, IH by done.
    by rewrite string_app_assoc.
Qed.

(** One quoted argument, brought to the point where the lexer has read
    it. *)
Lemma read_quote s rest :
  ∃ q, shlex.nonempty s || q = true
  ∧ shlex.read (shlex.quote s +:+ rest) shlex.Space "" false shlex.Space
    = shlex.read rest shlex.Word s q shlex.Space.
Proof.
  unfold shlex.quote. case_bool_decide as Hempty.
  { subst s. by exists true. }
  destruct (shlex.all_safe s) eqn:Hsafe.
  - exists false. split; [by rewrite nonempty_true|].
    apply all_safe_plain in Hsafe.
    destruct s as [|c s]; [done|]. simpl in Hsafe.
    apply andb_prop in Hsafe as [Hc Hs].
    rewrite string_app_cons, read_space_plain by done.
    by rewrite read_word_plain.
  - exists true. split; [by rewrite orb_true_r|].
    rewrite string_app_assoc.
    change ("'" +:+ ?x) with (String "'" x).
    change (shlex.read (String "'" ?x) shlex.Space "" false shlex.Space)
      with (shlex.read x (shlex.Quote "'") "" false shlex.Space).
    rewrite string_app_assoc. change ("'" +:+ rest) with (String "'" rest).
    by rewrite read_single_quoted.
Qed.

(** [shlex.split] undoes [shlex.join]. *)
Lemma split_join (split_command : list string) :
  shlex.split (shlex.join split_command) = Returned split_command.
Proof.
  unfold shlex.split, shlex.join.
  induction split_command as [|s l IH]; [done|].
  destruct l as [|s' l].
  - destruct (read_quote s "") as (q & Hq & Hread).
    rewrite string_app_nil_r in Hread.
    change (String.concat " " (shlex.quote <$> [s])) with (shlex.quote s).
    rewrite Hread. by apply read_word_end.
  - change (String.concat " " (shlex.quote <$> s :: s' :: l))
      with (shlex.quote s
            +:+ " " +:+ String.concat " " (shlex.quote <$> s' :: l)).
    destruct (read_quote s
                (" " +:+ String.concat " " (shlex.quote <$> s' :: l)))
      as (q & Hq & Hread).
    rewrite Hread, read_word_blank by done. by rewrite IH.
Qed.

(** ** The services *)

(** X12.  With a microphone configured, whenever [generate_services] returns it
    has written exactly one file, the unit, and left the settings file
    alone; and the command on the [ExecStart] line of the unit, split again
    with [shlex.split], is the list of arguments the command was built from:
    the run script, the satellite name, the address, the capture command
    and, for the type [vad] only, [--vad], whatever characters the name and
    the device hold. *)
Theorem generate_services_exec_start settings microphone env w w' :
  Settings.microphone_device settings = Some microphone →
  generate_services settings env w = (Returned tt, w') →
  ∃ user group exec_start,
    files w' = <[service_path env :=
                   unit_file user group exec_start (program_dir env)]> (files w)
    ∧ shlex.split exec_start
      = Returned (satellite_command env settings microphone)
    ∧ settings_file w' = settings_file w.
Proof.
  intros Hmic. unfold generate_services. rewrite Hmic.
  unfold check_output, write_file, emit, ask.
  unfold mbind, M_bind, mret, M_ret, raise. cbn [log].
  destruct (outputs env _) as [user|e]; [|done].
  destruct (outputs env _) as [group|e]; [|done].
  rewrite msgbox_run. cbv zeta. destruct (spawns env _); [|done].
  intros [= <-]. cbn [files settings_file logged].
  eexists (strip user), (strip group), _. split; [reflexivity|].
  split; [|done]. rewrite split_join. unfold satellite_command.
  by case_bool_decide.
Qed.

Lemma generate_services_exec_start_witness :
  let env := scripted_env [(0%Z, "")] 0 (Returned ("pi" +:+ newline)) true in
  let w' := (generate_services kitchen_settings env empty_world).2 in
  ∃ user group exec_start,
    files w' = <[service_path env :=
                   unit_file user group exec_start (program_dir env)]>
                 (files empty_world)
    ∧ shlex.split exec_start
      = Returned (satellite_command env kitchen_settings
                    "plughw:CARD=seeed2micvoicec,DEV=0")
    ∧ settings_file w' = settings_file empty_world.
Proof.
  apply (generate_services_exec_start kitchen_settings
           "plughw:CARD=seeed2micvoicec,DEV=0"
           (scripted_env [(0%Z, "")] 0 (Returned ("pi" +:+ newline)) true)
           empty_world).
  - reflexivity.
  - vm_compute. reflexivity.
Defined.

(** X13.  [generate_services] depends on three things of the settings only: the
    microphone device, the satellite name, and whether the type is [vad].
    Settings that agree on these run alike, whatever their sound device,
    feedback sounds, wake word system and wake words, and whether their
    type is [always] or [wake]. *)
Theorem generate_services_reads_three_fields settings1 settings2 env w :
  Settings.microphone_device settings1 = Settings.microphone_device settings2 →
  Settings.satellite_name settings1 = Settings.satellite_name settings2 →
  (Settings.satellite_type settings1 = SatelliteType.VAD
   ↔ Settings.satellite_type settings2 = SatelliteType.VAD) →
  generate_services settings1 env w = generate_services settings2 env w.
Proof.
  intros Hmic Hname Htype. unfold generate_services.
  rewrite Hmic, Hname.
  by rewrite (bool_decide_ext _ _ Htype).
Qed.

Lemma generate_services_reads_three_fields_witness :
  generate_services kitchen_settings working_env empty_world
  = generate_services
      (Settings.set_sound_device (Some "plughw:CARD=Device,DEV=0")
         (Settings.set_satellite_type SatelliteType.WAKE kitchen_settings))
      working_env empty_world.
Proof.
  apply (generate_services_reads_three_fields kitchen_settings
           (Settings.set_sound_device (Some "plughw:CARD=Device,DEV=0")
              (Settings.set_satellite_type SatelliteType.WAKE
                 kitchen_settings))
           working_env empty_world).
  - reflexivity.
  - reflexivity.
  - split; intros [=].
Defined.

(** X14.  When the unit file does not exist, [install_services] asks for the
    file, shows the message and returns: no password is asked for and no
    command is run. *)
Theorem install_services_needs_unit settings env w :
  present env (log w ++ [Exists (service_path env)]) = false →
  let argv := msgbox_argv "Please generate services" in
  install_services settings env w =
    (if spawns env (log w ++ [Exists (service_path env); Popen argv false])
     then (Returned tt,
           logged w [Exists (service_path env); Popen argv false;
                     Communicate None])
     else (Raised OSError,
           logged w [Exists (service_path env); Popen argv false])).
Proof.
  intros Hthere argv. unfold install_services, exists_, emit, ask.
  unfold mbind, M_bind, mret, M_ret. cbn [log].
  fold (service_path env). rewrite Hthere. cbn [negb].
  rewrite msgbox_run. cbv zeta. fold argv. cbn [log].
  rewrite <-!(app_assoc (log w)). simpl.
  destruct (spawns env _); unfold logged; simpl;
    by rewrite <-!(app_assoc (log w)).
Qed.

Lemma install_services_needs_unit_witness :
  let env := working_env in
  let argv := msgbox_argv "Please generate services" in
  install_services Settings.defaults env empty_world =
    (if spawns env (log empty_world
                    ++ [Exists (service_path env); Popen argv false])
     then (Returned tt,
           logged empty_world [Exists (service_path env); Popen argv false;
                               Communicate None])
     else (Raised OSError,
           logged empty_world [Exists (service_path env); Popen argv false])).
Proof.
  apply (install_services_needs_unit Settings.defaults working_env empty_world).
  reflexivity.
Defined.

(** X15.  When the unit file exists and [install_services] returns, the
    commands handed to the pool are some first commands of the stop batch
    followed by some first commands of the install batch, at least one of
    each: the install batch is started whatever the stop batch came to,
    also when its first command failed. *)
Theorem install_services_runs_both_batches settings env w w' :
  present env (log w ++ [Exists (service_path env)]) = true →
  install_services settings env w = (Returned tt, w') →
  ∃ events stopped installed,
    w' = logged w events
    ∧ submitted events
      = take stopped stop_commands
        ++ take installed (install_commands (_LOCAL_DIR env /> "services"))
    ∧ 1 ≤ stopped ∧ 1 ≤ installed.
Proof.
  intros Hthere. unfold install_services, exists_, emit, ask.
  unfold mbind, M_bind, mret, M_ret. cbn [log].
  fold (service_path env). rewrite Hthere. cbn [negb].
  unfold paswordbox. rewrite whiptail_run. cbv zeta.
  destruct (spawns env _); [|done].
  match goal with
  | |- context [run_with_gauge ?text stop_commands ?password env ?w1] =>
      destruct (run_with_gauge text stop_commands password env w1)
        as [[ok1|e] w2] eqn:E1;
      [apply run_with_gauge_returns in E1
         as (events1 & k1 & -> & Hsub1 & _ & Hk1)|done]
  end.
  match goal with
  | |- context [run_with_gauge ?text ?commands ?password env ?w1] =>
      destruct (run_with_gauge text commands password env w1)
        as [[ok2|e] w3] eqn:E2;
      [apply run_with_gauge_returns in E2
         as (events2 & k2 & -> & Hsub2 & _ & Hk2)|done]
  end.
  assert (∀ text w3,
    msgbox text env w3 = (Returned tt, w') →
    w' = logged w3 [Popen (msgbox_argv text) false; Communicate None])
    as Hmsg.
  { intros text w3. rewrite msgbox_run. cbv zeta.
    destruct (spawns env _); [|done]. by intros [= <-]. }
  intros Hrun.
  assert (∃ text, msgbox text env
            (logged (logged
               (logged
                  {| settings_file := settings_file w; files := files w;
                     log := log w ++ [Exists (service_path env)] |}
                  [Popen (["whiptail"; "--title"; TITLE]
                          ++ ["--passwordbox"; "sudo password:"; HEIGHT; WIDTH])
                     false; Communicate None]) events1) events2)
          = (Returned tt, w')) as [text Hrun'].
  { destruct ok2; eauto. }
  apply Hmsg in Hrun' as ->.
  exists ([Exists (service_path env);
           Popen (["whiptail"; "--title"; TITLE]
                  ++ ["--passwordbox"; "sudo password:"; HEIGHT; WIDTH]) false;
           Communicate None]
          ++ events1 ++ events2
          ++ [Popen (msgbox_argv text) false; Communicate None]),
    (if ok1 then k1 else S k1), (if ok2 then k2 else S k2).
  split_and!.
  - unfold logged. cbn [log settings_file files]. f_equal.
    rewrite <-!app_assoc. reflexivity.
  - rewrite !submitted_app, Hsub1, Hsub2. cbn. by rewrite app_nil_r.
  - destruct ok1; [subst k1; cbn|]; lia.
  - destruct ok2; [subst k2; cbn|]; lia.
Qed.

(** Both batches fail at their first command. *)
Lemma install_services_runs_both_batches_witness :
  let env := scripted_env [(0%Z, "secret"); (0%Z, "")] 1
               (Raised CalledProcessError) true in
  ∃ events stopped installed,
    (install_services Settings.defaults env empty_world).2
    = logged empty_world events
    ∧ submitted events
      = take stopped stop_commands
        ++ take installed (install_commands (_LOCAL_DIR env /> "services"))
    ∧ 1 ≤ stopped ∧ 1 ≤ installed.
Proof.
  apply (install_services_runs_both_batches Settings.defaults
           (scripted_env [(0%Z, "secret"); (0%Z, "")] 1
              (Raised CalledProcessError) true)
           empty_world).
  - reflexivity.
  - vm_compute. reflexivity.
Defined.

(** ** What the list dialogs return *)

Lemma menu_tables_tags (items : list ItemType) tag v :
  (menu_tables items).1 !! tag = Some v →
  ∃ i item, tag = str i ∧ items !! i = Some item ∧ v = item_value item.
Proof.
  unfold menu_tables.
  induction items as [|item items IH] using rev_ind.
  { simpl. by rewrite lookup_empty. }
  rewrite enumerate_snoc, foldl_snoc.
  destruct (foldl menu_step _ (enumerate items)) as [item_map item_args].
  simpl in *.
  destruct (decide (str (length items) = tag)) as [<-|Hne].
  - rewrite lookup_insert_eq. intros [= <-].
    exists (length items), item. by rewrite list_lookup_middle.
  - rewrite lookup_insert_ne by done. intros (i & it & -> & Hi & ->)%IH.
    exists i, it. split_and!; [done| |done].
    by apply lookup_app_l_Some.
Qed.

Lemma flag_tables_tags selected (items : list ItemType) tag v :
  (flag_tables selected items).1 !! tag = Some v →
  ∃ i item, tag = str i ∧ items !! i = Some item ∧ v = item_value item.
Proof.
  unfold flag_tables.
  induction items as [|item items IH] using rev_ind.
  { simpl. by rewrite lookup_empty. }
  rewrite enumerate_snoc, foldl_snoc.
  destruct (foldl (flag_step selected) _ (enumerate items))
    as [item_map item_args].
  simpl in *.
  destruct (decide (str (length items) = tag)) as [<-|Hne].
  - rewrite lookup_insert_eq. intros [= <-].
    exists (length items), item. by rewrite list_lookup_middle.
  - rewrite lookup_insert_ne by done. intros (i & it & -> & Hi & ->)%IH.
    exists i, it. split_and!; [done| |done].
    by apply lookup_app_l_Some.
Qed.

Lemma menu_some text items args env w value w' :
  menu text items args env w = (Returned (Some value), w') →
  ∃ i item,
    items !! i = Some item ∧ value = item_value item
    ∧ answers env w (menu_argv text items args) (0%Z, str i).
Proof.
  destruct (decide (items = [])) as [->|Hitems].
  { unfold menu. unfold mbind, M_bind, assert, raise. simpl. done. }
  rewrite menu_run by done. cbv zeta.
  destruct (spawns env _) eqn:Hspawn; [|done].
  destruct (exits env _) as [code reply] eqn:Hexit. simpl.
  case_bool_decide as Hcode; [done|].
  intros [= Hvalue <-].
  apply menu_tables_tags in Hvalue as (i & item & -> & Hitem & ->).
  exists i, item. split_and!; [done|done|].
  split; [done|]. rewrite Hexit. f_equal.
  destruct (decide (code = 0%Z)); [done|]. by destruct Hcode.
Qed.

(** X16.  When [menu] returns a value, whiptail has exited with code 0 and
    printed the tag of a position of the list, and the value is that of the
    item at the position: [menu] never returns text of its own. *)
Theorem menu_returns_an_item text items args env w value w' :
  menu text items args env w = (Returned (Some value), w') →
  ∃ i item,
    items !! i = Some item ∧ value = item_value item
    ∧ answers env w (menu_argv text items args) (0%Z, str i).
Proof. apply menu_some. Qed.

(** ** The menu loops *)

(** X17.  Whatever is chosen in its menu, for however many rounds: when
    [configure_microphone] returns, no field but the microphone device has
    changed, no file but the settings file was written, and the settings
    file holds the settings returned, unless nothing changed; and when it
    ends the program, the exit code is 0. *)
Theorem configure_microphone_touches_microphone fuel settings env w o w' :
  configure_microphone fuel settings env w = (Returned o, w') →
  after_call (touches microphone_of settings w) o w'.
Proof.
  apply (loop_touches microphone_of configure_microphone_round env).
  intros. apply configure_microphone_round_touches.
Qed.

(** The device is entered by hand, then the menu is left. *)
Lemma configure_microphone_touches_microphone_witness :
  let env := scripted_env [(0%Z, "2"); (0%Z, "plughw:CARD=Device,DEV=0");
                           (1%Z, "")] 0 (Raised CalledProcessError) true in
  let settings' :=
    Settings.set_microphone_device (Some "plughw:CARD=Device,DEV=0")
      Settings.defaults in
  touches microphone_of Settings.defaults empty_world settings'
    (configure_microphone 3 Settings.defaults env empty_world).2.
Proof.
  apply (configure_microphone_touches_microphone 3 Settings.defaults
           (scripted_env [(0%Z, "2"); (0%Z, "plughw:CARD=Device,DEV=0");
                          (1%Z, "")] 0 (Raised CalledProcessError) true)
           empty_world
           (Returns (Settings.set_microphone_device
                       (Some "plughw:CARD=Device,DEV=0") Settings.defaults))).
  vm_compute. reflexivity.
Defined.

Lemma menu_returns_an_item_witness :
  ∃ i item,
    repeated_items !! i = Some item ∧ "done" = item_value item
    ∧ answers (answering_env "2") empty_world
        (menu_argv "Main Menu" repeated_items []) (0%Z, str i).
Proof.
  apply (menu_returns_an_item "Main Menu" repeated_items [] (answering_env "2")
           empty_world "done"
           (menu "Main Menu" repeated_items [] (answering_env "2")
              empty_world).2).
  vm_compute. reflexivity.
Defined.

(** X18.  Whatever is chosen in its menu, for however many rounds: when
    [configure_sound] returns, no field but the sound device and the
    feedback sounds has changed, no file but the settings file was written,
    and the settings file holds the settings returned, unless nothing
    changed. *)
Theorem configure_sound_touches_sound fuel settings env w settings' w' :
  configure_sound fuel settings env w = (Returned (Returns settings'), w') →
  touches sound_of settings w settings' w'.
Proof.
  apply (loop_touches sound_of configure_sound_round env
           (λ s w0, configure_sound_round_touches s env w0)
           fuel settings w (Returns settings') w').
Qed.

(** Both feedback sounds are switched on, the sound is disabled, and the
    menu is left. *)
Lemma configure_sound_touches_sound_witness :
  let env := scripted_env [(0%Z, "4"); (0%Z, "0 1"); (0%Z, "3"); (0%Z, "");
                           (1%Z, "")] 0 (Raised CalledProcessError) true in
  let settings' :=
    Settings.set_feedback_sounds ["awake"; "done"] kitchen_settings in
  touches sound_of kitchen_settings empty_world settings'
    (configure_sound 4 kitchen_settings env empty_world).2.
Proof.
  apply (configure_sound_touches_sound 4 kitchen_settings
           (scripted_env [(0%Z, "4"); (0%Z, "0 1"); (0%Z, "3"); (0%Z, "");
                          (1%Z, "")] 0 (Raised CalledProcessError) true)
           empty_world).
  vm_compute. reflexivity.
Defined.

(** X19.  Whatever is chosen in its menu, for however many rounds: when
    [configure_wake_word] returns, no field but the wake word system and
    the wake-word mapping has changed, no file but the settings file was
    written, and the settings file holds the settings returned, unless
    nothing changed. *)
Theorem configure_wake_word_touches_wake_word fuel settings env w settings' w' :
  configure_wake_word fuel settings env w = (Returned (Returns settings'), w') →
  touches wake_word_of settings w settings' w'.
Proof.
  apply (loop_touches wake_word_of configure_wake_word_round env
           (λ s w0, configure_wake_word_round_touches s env w0)
           fuel settings w (Returns settings') w').
Qed.

(** porcupine1, already installed, is selected, then the menu is left. *)
Lemma configure_wake_word_touches_wake_word_witness :
  let env := scripted_env [(0%Z, "0"); (0%Z, "1"); (1%Z, "")] 0
               (Raised CalledProcessError) true in
  let settings' := with_engine WakeWordSystem.PORCUPINE1 Settings.defaults in
  touches wake_word_of Settings.defaults empty_world settings'
    (configure_wake_word 3 Settings.defaults env empty_world).2.
Proof.
  apply (configure_wake_word_touches_wake_word 3 Settings.defaults
           (scripted_env [(0%Z, "0"); (0%Z, "1"); (1%Z, "")] 0
              (Raised CalledProcessError) true)
           empty_world).
  vm_compute. reflexivity.
Defined.

Lemma bind_run {A B} (m : M A) (k : A → M B) env w :
  (m ≫= k) env w
  = match m env w with
    | (Returned a, w1) => k a env w1
    | (Raised e, w1) => (Raised e, w1)
    end.
Proof. reflexivity. Qed.

Lemma microphone_menu_run env w :
  microphone_menu env w =
    if spawns env (log w ++ [Popen microphone_menu_argv false]) then
      let reply := exits env (log w ++ [Popen microphone_menu_argv false;
                                        Communicate None]) in
      (Returned
         (if bool_decide (reply.1 ≠ 0%Z) then None
          else (menu_tables
                  [Pair "detect" "Autodetect";
                   Pair "list" "Select From List";
                   Pair "manual" "Enter Manually";
                   Pair "respeaker" "Install ReSpeaker Drivers"]).1 !! reply.2),
       logged w [Popen microphone_menu_argv false; Communicate None])
    else (Raised OSError, logged w [Popen microphone_menu_argv false]).
Proof. unfold microphone_menu. by rewrite menu_run. Qed.

(** X20.  When [Select From List] is chosen in the microphone menu and the
    listing holds no [plughw:] device, [configure_microphone] raises
    [AssertionError]: [radiolist] is called with no item, and nothing
    catches its [assert]. *)
Theorem list_needs_a_device fuel settings env w w' :
  answers env w microphone_menu_argv (0%Z, "1") →
  get_microphone_devices env
    (logged w [Popen microphone_menu_argv false; Communicate None])
  = (Returned [], w') →
  configure_microphone (S fuel) settings env w = (Raised AssertionError, w').
Proof.
  intros [Hspawn Hexit] Hdevices.
  unfold configure_microphone. cbn [while_true].
  unfold configure_microphone_round. rewrite !bind_run.
  rewrite microphone_menu_run, Hspawn. cbv zeta. rewrite Hexit.
  cbn [fst snd].
  rewrite (bool_decide_eq_false_2 (0%Z ≠ 0%Z)) by (intros H; by apply H).
  change ((menu_tables _).1 !! "1") with (Some "list").
  rewrite (bool_decide_eq_false_2 (Some "list" = Some "detect")) by done.
  rewrite (bool_decide_eq_true_2 (Some "list" = Some "list")) by done.
  rewrite bind_run, Hdevices.
  by unfold radiolist, mbind, M_bind, assert, raise.
Qed.

(** The listing is empty. *)
Lemma list_needs_a_device_witness :
  let env := scripted_env [(0%Z, "1")] 0 (Returned "") true in
  configure_microphone 1 Settings.defaults env empty_world
  = (Raised AssertionError,
     (get_microphone_devices env
        (logged empty_world [Popen microphone_menu_argv false;
                             Communicate None])).2).
Proof.
  apply (list_needs_a_device 0 Settings.defaults
           (scripted_env [(0%Z, "1")] 0 (Returned "") true) empty_world).
  - split; reflexivity.
  - vm_compute. reflexivity.
Defined.

Lemma yesno_run text env w :
  yesno text env w =
    let argv := yesno_argv text in
    if spawns env (log w ++ [Popen argv false]) then
      let reply := exits env (log w ++ [Popen argv false; Communicate None]) in
      (Returned (negb (bool_decide (reply.1 ≠ 0%Z))),
       logged w [Popen argv false; Communicate None])
    else (Raised OSError, logged w [Popen argv false]).
Proof.
  unfold yesno. rewrite bind_run, whiptail_run. cbv zeta.
  destruct (spawns env _); [|done].
  by destruct (bool_decide (_ ≠ 0%Z)).
Qed.

Lemma paswordbox_run text env w :
  paswordbox text env w =
    let argv := passwordbox_argv text in
    if spawns env (log w ++ [Popen argv false]) then
      let reply := exits env (log w ++ [Popen argv false; Communicate None]) in
      (Returned (if bool_decide (reply.1 ≠ 0%Z) then None else Some reply.2),
       logged w [Popen argv false; Communicate None])
    else (Raised OSError, logged w [Popen argv false]).
Proof. unfold paswordbox. by rewrite whiptail_run. Qed.

(** X21.  When [Install ReSpeaker Drivers] is chosen in the microphone menu,
    the round either goes on with the settings as they were (the question
    was not confirmed), or ends the program with code 0 after showing the
    message that the installation is complete; the result of the
    installation plays no part. *)
Theorem respeaker_exits_with_0 settings env w next w' :
  answers env w microphone_menu_argv (0%Z, "3") →
  configure_microphone_round settings env w = (Returned next, w') →
  next = Continue settings
  ∨ (next = Stop (Exits 0)
     ∧ ∃ events,
         w' = logged w (events ++ [Popen (msgbox_argv respeaker_done) false;
                                   Communicate None])).
Proof.
  intros [Hspawn Hexit].
  unfold configure_microphone_round. rewrite bind_run.
  rewrite microphone_menu_run, Hspawn. cbv zeta. rewrite Hexit.
  cbn [fst snd].
  rewrite (bool_decide_eq_false_2 (0%Z ≠ 0%Z)) by (intros H; by apply H).
  change ((menu_tables _).1 !! "3") with (Some "respeaker").
  rewrite (bool_decide_eq_false_2 (Some "respeaker" = Some "detect")) by done.
  rewrite (bool_decide_eq_false_2 (Some "respeaker" = Some "list")) by done.
  rewrite (bool_decide_eq_false_2 (Some "respeaker" = Some "manual")) by done.
  rewrite (bool_decide_eq_true_2 (Some "respeaker" = Some "respeaker")) by done.
  clear Hspawn Hexit.
  rewrite bind_run, yesno_run. cbv zeta.
  destruct (spawns env _); [|done].
  destruct (negb _).
  2: { intros [= <- <-]. by left. }
  rewrite bind_run, paswordbox_run. cbv zeta.
  destruct (spawns env _); [|done].
  rewrite bind_run. unfold ask at 1. cbv beta.
  rewrite bind_run.
  match goal with
  | |- context [run_with_gauge ?text ?commands ?password env ?w1] =>
      destruct (run_with_gauge text commands password env w1)
        as [[ok|e] w2] eqn:E;
      [apply run_with_gauge_returns in E as (events & k & -> & _)|done]
  end.
  rewrite bind_run, msgbox_run. cbv zeta. fold (msgbox_argv respeaker_done).
  destruct (spawns env _); [|done].
  intros [= <- <-]. right. split; [done|].
  rewrite !logged_logged.
  match goal with
  | |- ∃ events0, logged w (?a ++ ?b ++ ?c ++ ?d ++ _) = _ =>
      exists (a ++ b ++ c ++ d)
  end.
  by rewrite <-!app_assoc.
Qed.

(** The installation of the drivers fails. *)
Lemma respeaker_exits_with_0_witness :
  let env := scripted_env [(0%Z, "3"); (0%Z, ""); (0%Z, "secret"); (0%Z, "")]
               1 (Raised CalledProcessError) true in
  let w' := (configure_microphone_round Settings.defaults env empty_world).2 in
  Stop (Exits 0) = Continue Settings.defaults
  ∨ (Stop (Exits 0) = Stop (Exits 0)
     ∧ ∃ events,
         w' = logged empty_world
                (events ++ [Popen (msgbox_argv respeaker_done) false;
                            Communicate None])).
Proof.
  apply (respeaker_exits_with_0 Settings.defaults
           (scripted_env [(0%Z, "3"); (0%Z, ""); (0%Z, "secret"); (0%Z, "")]
              1 (Raised CalledProcessError) true)
           empty_world).
  - split; reflexivity.
  - vm_compute. reflexivity.
Defined.

Example respeaker_failure_is_reported_done :
  let env := scripted_env [(0%Z, "3"); (0%Z, ""); (0%Z, "secret"); (0%Z, "")]
               1 (Raised CalledProcessError) true in
  let run := configure_microphone 5 Settings.defaults env empty_world in
  run.1 = Returned (Exits 0)
  ∧ results (log run.2) = [false]
  ∧ last (spawned (log run.2)) = Some (msgbox_argv respeaker_done).
Proof. vm_compute. done. Qed.

Lemma flag_tables_no_tag selected (items : list ItemType) reply :
  (∀ i, i < length items → reply ≠ str i) →
  (flag_tables selected items).1 !! reply = None.
Proof.
  intros Hreply.
  destruct ((flag_tables selected items).1 !! reply) as [v|] eqn:E; [|done].
  apply flag_tables_tags in E as (i & item & -> & Hitem & _).
  destruct (Hreply i); [by eapply lookup_lt_Some|done].
Qed.

(** X22.  When whiptail exits with code 0 and prints a text that is no tag of
    the list, [radiolist] returns that text: confirming a radio list in
    which nothing is selected gives the empty text, not [None]. *)
Theorem radiolist_returns_other_text text items selected_item args env w reply :
  items ≠ [] →
  let argv := radiolist_argv text items selected_item args in
  answers env w argv (0%Z, reply) →
  (∀ i, i < length items → reply ≠ str i) →
  radiolist text items selected_item args env w
  = (Returned (Some reply), logged w [Popen argv false; Communicate None]).
Proof.
  intros Hitems argv [Hspawn Hexit] Hreply.
  rewrite radiolist_run by done. cbv zeta. fold argv.
  rewrite Hspawn, Hexit. cbn [fst snd].
  rewrite (bool_decide_eq_false_2 (0%Z ≠ 0%Z)) by (intros H; by apply H).
  unfold radiolist_tables. by rewrite flag_tables_no_tag.
Qed.

Lemma radiolist_returns_other_text_witness :
  let argv := radiolist_argv "Wake Word System:"
                (Label <$> WakeWordSystem.values) None [] in
  radiolist "Wake Word System:" (Label <$> WakeWordSystem.values) None []
    (answering_env "") empty_world
  = (Returned (Some ""),
     logged empty_world [Popen argv false; Communicate None]).
Proof.
  apply (radiolist_returns_other_text "Wake Word System:"
           (Label <$> WakeWordSystem.values) None [] (answering_env "")
           empty_world "").
  - discriminate.
  - split; reflexivity.
  - intros i _ Hi. by destruct (str_plain i) as [_ []].
Defined.

(** X23.  [main_menu] returns one of [mic], [snd], [wake], [name], [type],
    [generate], [install], or nothing; and [wake] only when the satellite
    type is [wake]. *)
Theorem main_menu_offers_what_applies settings env w choice w' :
  main_menu settings env w = (Returned (Some choice), w') →
  choice ∈ ["mic"; "snd"; "wake"; "name"; "type"; "generate"; "install"]
  ∧ (choice = "wake" → Settings.satellite_type settings = SatelliteType.WAKE).
Proof.
  unfold main_menu. cbv zeta.
  intros (i & item & Hitem & -> & _)%menu_some.
  case_bool_decide as Htype.
  - split; [|done].
    apply list_elem_of_lookup_2 in Hitem.
    repeat (apply elem_of_cons in Hitem as [->|Hitem]; [set_solver|]).
    by apply elem_of_nil in Hitem.
  - apply list_elem_of_lookup_2 in Hitem.
    repeat (apply elem_of_cons in Hitem as [->|Hitem];
            [split; [set_solver|done]|]).
    by apply elem_of_nil in Hitem.
Qed.

Lemma main_menu_offers_what_applies_witness :
  "generate" ∈ ["mic"; "snd"; "wake"; "name"; "type"; "generate"; "install"]
  ∧ ("generate" = "wake" →
     Settings.satellite_type Settings.defaults = SatelliteType.WAKE).
Proof.
  apply (main_menu_offers_what_applies Settings.defaults (answering_env "4")
           empty_world "generate"
           (main_menu Settings.defaults (answering_env "4") empty_world).2).
  vm_compute. reflexivity.
Defined.

(** X24.  [wake_word_menu] returns [system] or [wake_word], or nothing; and
    [wake_word] only when a wake word system is stored. *)
Theorem wake_word_menu_offers_what_applies settings env w choice w' :
  wake_word_menu settings env w = (Returned (Some choice), w') →
  choice ∈ ["system"; "wake_word"]
  ∧ (choice = "wake_word" → Settings.wake_word_system settings ≠ None).
Proof.
  unfold wake_word_menu. cbv zeta.
  intros (i & item & Hitem & -> & _)%menu_some.
  case_bool_decide as Hsystem; cbn [negb] in Hitem.
  - apply list_elem_of_lookup_2 in Hitem.
    repeat (apply elem_of_cons in Hitem as [->|Hitem];
            [split; [set_solver|done]|]).
    by apply elem_of_nil in Hitem.
  - split; [|done].
    apply list_elem_of_lookup_2 in Hitem.
    repeat (apply elem_of_cons in Hitem as [->|Hitem]; [set_solver|]).
    by apply elem_of_nil in Hitem.
Qed.

Lemma wake_word_menu_offers_what_applies_witness :
  "wake_word" ∈ ["system"; "wake_word"]
  ∧ ("wake_word" = "wake_word" →
     Settings.wake_word_system stale_settings ≠ None).
Proof.
  apply (wake_word_menu_offers_what_applies stale_settings
           (answering_env "1") empty_world "wake_word"
           (wake_word_menu stale_settings (answering_env "1") empty_world).2).
  vm_compute. reflexivity.
Defined.

(** ** The program *)

Lemma touches_in_step fields settings w settings' w' :
  touches fields settings w settings' w' → in_step settings w settings' w'.
Proof. by intros []. Qed.

Lemma in_step_same settings w w' :
  settings_file w' = settings_file w → in_step settings w settings w'.
Proof. by left. Qed.

Lemma generate_services_keeps_settings settings env w r w' :
  generate_services settings env w = (r, w') →
  settings_file w' = settings_file w.
Proof.
  unfold generate_services.
  destruct (Settings.microphone_device settings) as [microphone|].
  2: { intros E. by apply still_msgbox in E as []. }
  unfold check_output, write_file, emit, ask.
  unfold mbind, M_bind, mret, M_ret, raise. cbn [log].
  destruct (outputs env _) as [user|e]; [|by intros [= <- <-]].
  destruct (outputs env _) as [group|e]; [|by intros [= <- <-]].
  intros E. by apply still_msgbox in E as [].
Qed.

Lemma after_call_resume (P : Settings → World → Prop) o w :
  after_call P o w → after_round P (resume o) w.
Proof. by destruct o. Qed.

Lemma main_round_in_step fuel settings env w :
  returning (main_round fuel settings) env w (after_round (in_step settings w)).
Proof.
  assert (∀ fields (H : Lens fields) round w1,
    same_store w w1 →
    (∀ s w0, returning (round s) env w0 (after_round (touches fields s w0))) →
    returning (o ← while_true fuel round settings; mret (resume o)) env w1
      (after_round (in_step settings w))) as Hloop.
  { intros fields H round w1 [S1 _] Hround.
    eapply returning_call; [by apply (loop_touches fields round env)|].
    intros o w2 Ho. finish. apply after_call_resume.
    destruct o as [settings'|code|]; simpl in *; [|done..].
    eapply in_step_trans; [by apply in_step_same|by eapply touches_in_step]. }
  assert (∀ fields handler w1,
    same_store w w1 →
    returning handler env w1 (touches fields settings w1) →
    returning (settings' ← handler; mret (Continue settings')) env w1
      (after_round (in_step settings w))) as Hcall.
  { intros fields handler w1 [S1 _] Hhandler.
    eapply returning_call; [done|]. intros settings' w2 H2. finish. simpl.
    eapply in_step_trans; [by apply in_step_same|by eapply touches_in_step]. }
  unfold main_round. step as choice w1 S1.
  repeat case_bool_decide.
  - eapply (Hloop microphone_of); [apply _|done|].
    intros. apply configure_microphone_round_touches.
  - eapply (Hloop sound_of); [apply _|done|].
    intros. apply configure_sound_round_touches.
  - eapply (Hloop wake_word_of); [apply _|done|].
    intros. apply configure_wake_word_round_touches.
  - eapply Hcall; [done|]. apply set_satellite_name_touches.
  - eapply Hcall; [done|]. apply set_satellite_type_touches.
  - apply returning_bind. intros [] w2 E%generate_services_keeps_settings.
    finish. simpl. destruct S1. left. split; [done|congruence].
  - step as [] w2 S2. finish. simpl. destruct S1, S2. left.
    split; [done|congruence].
  - finish. simpl. destruct S1. by left.
Qed.

Lemma main_loop_in_step fuel fuel' settings env w :
  returning (while_true fuel (main_round fuel') settings) env w
    (after_call (in_step settings w)).
Proof.
  apply (while_true_returning (in_step settings w)).
  - intros s1 w1 H1. eapply returning_weaken; [apply main_round_in_step|].
    intros [s2|[s2|code|]] w2; simpl; eauto using in_step_trans.
  - apply in_step_refl.
Qed.

Lemma load_asdict (s : Settings) env w :
  settings_file w = Some (Settings.asdict s) →
  Settings.load env w = (Returned (Some s), w).
Proof.
  intros Hfile. unfold Settings.load. rewrite Hfile.
  destruct s as [mic snd sounds sys words name type].
  pose proof (as_str_list_strings sounds) as Hsounds.
  pose proof (as_str_dict_map words) as Hwords.
  unfold as_str_list in Hsounds. unfold as_str_dict in Hwords.
  unfold Settings.asdict. simpl Settings.microphone_device.
  destruct mic, snd, sys; simpl;
    unfold Settings.init, kwarg; simpl;
    by rewrite Hsounds, Hwords.
Qed.

Lemma load_by_file env w w' :
  settings_file w' = settings_file w →
  Settings.load env w' = ((Settings.load env w).1, w').
Proof.
  intros Hfile. unfold Settings.load. rewrite Hfile.
  destruct (settings_file w) as [d|]; [|done].
  by destruct (Settings.load_kwargs _ d []).
Qed.

Lemma still_load : still Settings.load.
Proof.
  intros env w r w'. unfold Settings.load.
  destruct (settings_file w) as [d|]; [|by intros [= <- <-]].
  destruct (Settings.load_kwargs _ d []); by intros [= <- <-].
Qed.

Lemma main_returning fuel env w :
  returning (main fuel) env w
    (λ o w',
       match o with
       | Some (Returns settings') =>
           Settings.load env w' = (Returned (Some settings'), w')
       | _ => True
       end).
Proof.
  unfold main. step as local_dir w1 S1. step as [] w2 S2.
  apply returning_bind. intros loaded w3 Hload.
  pose proof (still_load _ _ _ _ Hload) as S3.
  destruct loaded as [settings|]; [|by finish].
  step as venv_dir w4 S4. step as there w5 S5. step as [] w6 S6.
  eapply returning_call; [apply main_loop_in_step|].
  intros [settings'| |] w7 H7; finish; [|done..].
  destruct H7 as [[-> H7]|H7]; [|by apply load_asdict].
  rewrite (load_by_file env w2) by (stores; congruence).
  by rewrite Hload.
Qed.

(** X25.  When [main] returns, the settings file holds what the settings
    object held at the end: [Settings.load] in the world it leaves gives the
    settings the loop ended with, whatever was chosen in the menus, for
    however many rounds. *)
Theorem main_leaves_settings_saved fuel env w settings' w' :
  main fuel env w = (Returned (Some (Returns settings')), w') →
  Settings.load env w' = (Returned (Some settings'), w').
Proof. apply (main_returning fuel env w (Some (Returns settings')) w'). Qed.

(** ** Device listings *)

Lemma plughw_devices_from (lines devices : list string) :
  foldl (λ devices line,
           let line := text.strip line in
           if text.startswith line "plughw:" then devices ++ [line]
           else devices)
        devices lines
  = devices ++ filter plughw (text.strip <$> lines).
Proof.
  revert devices. induction lines as [|line lines IH]; intros devices.
  { by rewrite app_nil_r. }
  rewrite fmap_cons, filter_cons. cbn [foldl]. rewrite IH. cbv zeta.
  case_decide as H; unfold plughw in H.
  - rewrite H. by rewrite <-app_assoc.
  - by rewrite (not_true_is_false _ H).
Qed.

(** The satellite is named, then the wizard is left. *)
Lemma main_leaves_settings_saved_witness :
  let env := scripted_env [(0%Z, "2"); (0%Z, "Kitchen"); (1%Z, "")] 0
               (Raised CalledProcessError) true in
  let w' := (main 3 env empty_world).2 in
  Settings.load env w'
  = (Returned (Some (Settings.set_satellite_name "Kitchen" Settings.defaults)),
     w').
Proof.
  apply (main_leaves_settings_saved 3
           (scripted_env [(0%Z, "2"); (0%Z, "Kitchen"); (1%Z, "")] 0
              (Raised CalledProcessError) true)
           empty_world).
  vm_compute. reflexivity.
Defined.

Lemma plughw_devices_filter (lines : list string) :
  plughw_devices lines = filter plughw (text.strip <$> lines).
Proof. apply (plughw_devices_from lines []). Qed.

Lemma splitlines_from_inline c rest line :
  inline c = true →
  text.splitlines_from (String c rest) line
  = text.splitlines_from rest (line +:+ String c "").
Proof.
  unfold inline. intros [[Hc Hbreak%negb_true_iff]%andb_prop Hcr%negb_true_iff]%andb_prop.
  apply bool_decide_eq_true in Hc.
  cbn [text.splitlines_from]. rewrite Hcr, Hbreak.
  rewrite !(bool_decide_eq_false_2 (text.byte c = 194)) by lia.
  rewrite !(bool_decide_eq_false_2 (text.byte c = 226)) by lia.
  by destruct rest as [|c1 [|c2 rest]].
Qed.

Lemma splitlines_from_line l rest line :
  all_inline l = true →
  text.splitlines_from (l +:+ newline +:+ rest) line
  = (line +:+ l) :: text.splitlines_from rest "".
Proof.
  revert line. induction l as [|c l IH]; intros line Hl.
  { by rewrite string_app_nil_r. }
  simpl in Hl. apply andb_prop in Hl as [Hc Hl].
  rewrite string_app_cons, splitlines_from_inline, IH by done.
  by rewrite string_app_assoc.
Qed.

Lemma lines_cons l (ls : list string) :
  lines (l :: ls) = l +:+ newline +:+ lines ls.
Proof.
  unfold lines. destruct ls as [|l' ls].
  - change ((l +:+ newline) = l +:+ newline +:+ "").
    by rewrite string_app_nil_r.
  - change (((l +:+ newline) +:+ "" +:+ lines (l' :: ls))
            = l +:+ newline +:+ lines (l' :: ls)).
    by rewrite string_app_assoc.
Qed.

Lemma splitlines_lines (ls : list string) :
  Forall (λ l, all_inline l = true) ls →
  text.splitlines (lines ls) = ls.
Proof.
  unfold text.splitlines.
  induction 1 as [|l ls Hl _ IH]; [done|].
  by rewrite lines_cons, splitlines_from_line, IH.
Qed.

Lemma well_formed_line l rest :
  all_inline l = true → text.well_formed rest = true →
  text.well_formed (l +:+ newline +:+ rest) = true.
Proof.
  intros Hl Hrest. induction l as [|c l IH]; [done|].
  cbn [all_inline] in Hl.
  apply andb_prop in Hl as [[[Hc _]%andb_prop _]%andb_prop Hl].
  apply bool_decide_eq_true in Hc. rewrite string_app_cons.
  cbn [text.well_formed]. rewrite bool_decide_eq_true_2 by done.
  by apply IH.
Qed.

Lemma well_formed_lines (ls : list string) :
  Forall (λ l, all_inline l = true) ls →
  text.well_formed (lines ls) = true.
Proof.
  induction 1 as [|l ls Hl _ IH]; [done|].
  rewrite lines_cons. by apply well_formed_line.
Qed.

(** X26.  For a listing of lines of plain text (ASCII, each ended by a line
    feed), [get_microphone_devices] and [get_sound_devices] return the
    lines that start with [plughw:] once stripped, stripped, in the order
    of the listing. *)
Theorem device_lists_hold_plughw_lines (captures playbacks : list string)
    env w :
  Forall (λ l, all_inline l = true) captures →
  Forall (λ l, all_inline l = true) playbacks →
  outputs env (log w ++ [CheckOutput ["arecord"; "-L"]])
  = Returned (lines captures) →
  outputs env (log w ++ [CheckOutput ["aplay"; "-L"]])
  = Returned (lines playbacks) →
  get_microphone_devices env w
  = (Returned (filter plughw (text.strip <$> captures)),
     logged w [CheckOutput ["arecord"; "-L"]])
  ∧ get_sound_devices env w
    = (Returned (filter plughw (text.strip <$> playbacks)),
       logged w [CheckOutput ["aplay"; "-L"]]).
Proof.
  intros Hcaptures Hplaybacks Hin Hout.
  split;
    unfold get_microphone_devices, get_sound_devices, check_output, emit, ask;
    unfold mbind, M_bind, mret, M_ret; cbn [log]; rewrite ?Hin, ?Hout;
    unfold text.decode; rewrite well_formed_lines by done; cbn [lift];
    unfold mret, M_ret;
    by rewrite splitlines_lines, plughw_devices_filter.
Qed.

Lemma device_lists_hold_plughw_lines_witness :
  let env := scripted_env [] 0 (Returned (lines card_listing)) true in
  get_microphone_devices env empty_world
  = (Returned (filter plughw (text.strip <$> card_listing)),
     logged empty_world [CheckOutput ["arecord"; "-L"]])
  ∧ get_sound_devices env empty_world
    = (Returned (filter plughw (text.strip <$> card_listing)),
       logged empty_world [CheckOutput ["aplay"; "-L"]]).
Proof.
  apply (device_lists_hold_plughw_lines card_listing card_listing
           (scripted_env [] 0 (Returned (lines card_listing)) true)
           empty_world).
  - repeat constructor.
  - repeat constructor.
  - reflexivity.
  - reflexivity.
Defined.

Example card_listing_devices :
  filter plughw (text.strip <$> card_listing)
  = ["plughw:CARD=Device,DEV=0"; "plughw:CARD=seeed2micvoicec,DEV=0"].
Proof. vm_compute. reflexivity. Qed.
